(** * asterisk-mqtt: the AMI reader, the event accessors and the call correlator

    A shallow embedding of [internal/ami] (parser and event accessors, with
    the line scanner of package bufio under the parser) and
    [internal/correlator] (cause table and call state machine), with the
    properties of the specification stated over it; then the validation of
    [internal/config], the mock of [internal/publisher] and the publishing
    loop of [cmd/asterisk-mqtt].

    Conventions.
    - A Go [string] is a byte sequence: [String.string].
    - A Go [int] on the build target (linux/amd64, see deploy/deploy.sh) is a
      64-bit signed integer, held in [Z].
    - [time.Time] is an instant, held in [Z] as nanoseconds since the zero
      instant of [time.Time]; [time.Duration] is an int64 count of
      nanoseconds; a [float64] number of seconds is held as the rational
      it is computed from, in lowest terms: the rounding of the float64
      division is left out, which changes nothing for a whole number of
      seconds and never reverses the order of two durations.
    - The input of the parser is held as its lines (the bytes between one
      line feed and the next), and the [bufio.Scanner] reading it as the
      answers its calls of [Scan] give, the limit on the length of a
      line included.
    - [map[string]*callState] is a [gmap string callState]: every record is
      allocated by [handleNewchannel] and reachable from one key only, so
      in-place mutation through the pointer is an update of that key. *)

From Stdlib Require Import ZArith QArith Qreduction Ascii String.
From stdpp Require Import gmap strings list pretty.

Local Open Scope string_scope.
Local Open Scope list_scope.
Local Open Scope Z_scope.

(** ** Go standard library pieces used by the code *)

Module strconv.

Inductive NumError := ErrSyntax | ErrRange.

Definition intSize : Z := 64.
Definition maxUint64 : Z := 2 ^ 64 - 1.

Definition byte_of (c : ascii) : Z := Z.of_N (Ascii.N_of_ascii c).

(** [ParseUint s 10 64]: the loop over the bytes of [s], [n] the value so
    far. It answers as soon as the value overflows, without looking at the
    bytes that follow. *)
Fixpoint ParseUint_loop (s : string) (n : Z) : Z * option NumError :=
  match s with
  | EmptyString => (n, None)
  | String c s' =>
      let b := byte_of c in
      if (48 <=? b) && (b <=? 57) then
        let d := b - 48 in
        let cutoff := maxUint64 / 10 + 1 in
        if cutoff <=? n then (maxUint64, Some ErrRange)
        else
          let n10 := n * 10 in
          let n1 := (n10 + d) mod 2 ^ 64 in
          if (n1 <? n10) || (maxUint64 <? n1) then (maxUint64, Some ErrRange)
          else ParseUint_loop s' n1
      else (0, Some ErrSyntax)
  end.

Definition ParseUint (s : string) : Z * option NumError :=
  match s with
  | EmptyString => (0, Some ErrSyntax)
  | _ => ParseUint_loop s 0
  end.

(** [ParseInt s 10 0]. *)
Definition ParseInt (s : string) : Z * option NumError :=
  match s with
  | EmptyString => (0, Some ErrSyntax)
  | String c0 rest =>
      let neg := bool_decide (c0 = "-"%char) in
      let s1 := if bool_decide (c0 = "+"%char) || neg then rest else s in
      match ParseUint s1 with
      | (_, Some ErrSyntax) => (0, Some ErrSyntax)
      | (un, _) =>
          let cutoff := 2 ^ (intSize - 1) in
          if negb neg && (cutoff <=? un) then (cutoff - 1, Some ErrRange)
          else if neg && (cutoff <? un) then (- cutoff, Some ErrRange)
          else (if neg then - un else un, None)
      end
  end.

(** The fast path of [Atoi]: digits only, after an optional sign. *)
Fixpoint Atoi_digits (s : string) (n : Z) : option Z :=
  match s with
  | EmptyString => Some n
  | String c s' =>
      let ch := (byte_of c - 48) mod 256 in
      if 9 <? ch then None else Atoi_digits s' (n * 10 + ch)
  end.

Definition Atoi (s : string) : Z * option NumError :=
  let sLen := Z.of_nat (String.length s) in
  if (0 <? sLen) && (sLen <? 19) then
    match s with
    | EmptyString => (0, Some ErrSyntax)
    | String c0 rest =>
        let signed := bool_decide (c0 = "-"%char) || bool_decide (c0 = "+"%char) in
        let s1 := if signed then rest else s in
        if signed && bool_decide (rest = EmptyString) then (0, Some ErrSyntax)
        else
          match Atoi_digits s1 0 with
          | None => (0, Some ErrSyntax)
          | Some n => (if bool_decide (c0 = "-"%char) then - n else n, None)
          end
    end
  else ParseInt s.

End strconv.

Module strings.

(** [strings.HasPrefix s p]. *)
Fixpoint HasPrefix (s p : string) : bool :=
  match p, s with
  | EmptyString, _ => true
  | String a p', String b s' => bool_decide (a = b) && HasPrefix s' p'
  | String _ _, EmptyString => false
  end.

(** [strings.Index s sep]: the byte offset of the first occurrence of
    [sep] in [s], or -1. *)
Fixpoint Index (s sep : string) : Z :=
  if HasPrefix s sep then 0
  else match s with
       | EmptyString => -1
       | String _ s' => let r := Index s' sep in if r <? 0 then -1 else r + 1
       end.

(** [strings.TrimRight s "\r"]: every trailing carriage return is
    removed. *)
Fixpoint TrimRight_CR (s : string) : string :=
  match s with
  | EmptyString => EmptyString
  | String c s' =>
      match TrimRight_CR s' with
      | EmptyString => if bool_decide (c = "013"%char) then EmptyString
                       else String c EmptyString
      | t => String c t
      end
  end.

(** The slices [s[:i]] and [s[i:]] for [0 <= i <= len(s)]. *)
Definition slice_to (s : string) (i : Z) : string :=
  String.substring 0 (Z.to_nat i) s.
Definition slice_from (s : string) (i : Z) : string :=
  String.substring (Z.to_nat i) (String.length s - Z.to_nat i) s.

End strings.

(** ** The part of package bufio the parser uses *)

Module bufio.

(** [MaxScanTokenSize]: the largest size the buffer of a scanner made by
    [NewScanner] grows to. *)
Definition MaxScanTokenSize : Z := 64 * 1024.

(** [dropCR]: one carriage return at the end of the data is dropped. *)
Fixpoint dropCR (data : string) : string :=
  match data with
  | EmptyString => EmptyString
  | String c data' =>
      match data' with
      | EmptyString => if bool_decide (c = "013"%char) then EmptyString else data
      | String _ _ => String c (dropCR data')
      end
  end.

(** A [Scanner] with the split function [ScanLines] (the default), held as
    the answers its calls of [Scan] have still to give, in order:
    [Some text] for [true] with [Text()] being [text], [None] for [false].
    When the answers are used up every further call answers [false]. *)
Definition Scanner := list (option string).

(** [NewScanner r], the input [r] given by its lines: the bytes between one
    line feed and the next, the last line with or without a line feed of its
    own.

    [ScanLines] finds a line once the line and its line feed are in the
    buffer (or the line and the end of the input), and the buffer does not
    grow beyond [MaxScanTokenSize] bytes. So a line shorter than that is
    delivered, less one carriage return at its end. At a line of
    [MaxScanTokenSize] bytes or more, carriage returns counted, [Scan]
    finds the buffer full without a token, records [ErrTooLong] and answers
    [false]; nothing behind the buffer is read from then on. The answers of
    the calls of [Scan] made after this one are taken as given: [after raw],
    for the line [raw] at which the scanner failed. The documentation of
    the package has the scanning stop for good ([stopped]); the
    implementation hands out the buffer once more ([final_token]). *)
Fixpoint NewScanner (after : string → Scanner) (r : list string) : Scanner :=
  match r with
  | [] => []
  | raw :: r' =>
      if Z.of_nat (String.length raw) <? MaxScanTokenSize
      then Some (dropCR raw) :: NewScanner after r'
      else None :: after raw
  end.

(** After the failure, as documented: every call answers [false]. *)
Definition stopped (raw : string) : Scanner := [].

(** After the failure, as implemented: the error being recorded, the next
    call of [Scan] hands the buffer (the first [MaxScanTokenSize] bytes of
    the line) to [ScanLines] as the last data there is, which makes one
    token of it; the calls after that answer [false]. *)
Definition final_token (raw : string) : Scanner :=
  [Some (dropCR (strings.slice_to raw MaxScanTokenSize))].

End bufio.

(** ** internal/ami: events and the stream parser *)

Module ami.

Record header := { Key : string; Value : string }.

Record Event := { headers : list header }.

Fixpoint NewEvent_headers (kvs : list string) : list header :=
  match kvs with
  | k :: v :: kvs' => {| Key := k; Value := v |} :: NewEvent_headers kvs'
  | _ => []
  end.

Definition NewEvent (kvs : list string) : Event :=
  {| headers := NewEvent_headers kvs |}.

Fixpoint Get_headers (hs : list header) (key : string) : string :=
  match hs with
  | [] => ""
  | h :: hs' => if bool_decide (Key h = key) then Value h
                else Get_headers hs' key
  end.

Definition Get (e : Event) (key : string) : string :=
  Get_headers (headers e) key.

Definition Type_ (e : Event) : string := Get e "Event".

Definition GetInt (e : Event) (key : string) : Z :=
  fst (strconv.Atoi (Get e key)).

Definition IsResponse (e : Event) : bool :=
  negb (bool_decide (Get e "Response" = "")).

(** [Parser] has one field, the scanner. *)
Definition Parser := bufio.Scanner.

(** [NewParser r]; [after] is what the scanner answers once it has failed
    at a line, see [bufio.NewScanner]. The properties of the parser below
    are stated for every [after]. *)
Definition NewParser (after : string → Parser) (r : list string) : Parser :=
  bufio.NewScanner after r.

(** The [for p.scanner.Scan()] loop of [Next], with the local [headers]
    as accumulator; the match on the parser is the call of [Scan]. The
    answer is the event (if any) and the parser left behind. *)
Fixpoint Next_loop (hs : list header) (p : Parser) : option Event * Parser :=
  match p with
  | [] =>
      match hs with
      | [] => (None, [])
      | _ => (Some {| headers := hs |}, [])
      end
  | None :: p' =>
      match hs with
      | [] => (None, p')
      | _ => (Some {| headers := hs |}, p')
      end
  | Some text :: p' =>
      let line := strings.TrimRight_CR text in
      if bool_decide (line = "") then
        match hs with
        | [] => Next_loop hs p'
        | _ => (Some {| headers := hs |}, p')
        end
      else
        let idx := strings.Index line ": " in
        if idx <? 0 then
          match hs with
          | [] => Next_loop hs p'
          | _ => Next_loop (hs ++ [{| Key := ""; Value := line |}]) p'
          end
        else
          let key := strings.slice_to line idx in
          let value := strings.slice_from line (idx + 2) in
          Next_loop (hs ++ [{| Key := key; Value := value |}]) p'
  end.

Definition Next (p : Parser) : option Event * Parser := Next_loop [] p.

(** [ParseAll]: [Next] until it answers [false]. Every successful [Next]
    uses up an answer of the scanner, so [S (length p)] rounds suffice. *)
Fixpoint ParseAll_fuel (fuel : nat) (p : Parser) : list Event :=
  match fuel with
  | O => []
  | S fuel' =>
      match Next p with
      | (Some evt, p') => evt :: ParseAll_fuel fuel' p'
      | (None, _) => []
      end
  end.

Definition ParseAll (p : Parser) : list Event :=
  ParseAll_fuel (S (length p)) p.

End ami.

(** ** The part of package time the correlator uses *)

Module time.

(** An instant: nanoseconds since the zero [time.Time]. *)
Definition Time := Z.
(** An int64 count of nanoseconds. *)
Definition Duration := Z.

Definition Second : Duration := 1000000000.
Definition minDuration : Duration := - 2 ^ 63.
Definition maxDuration : Duration := 2 ^ 63 - 1.

Definition IsZero (t : Time) : bool := t =? 0.

(** [t.Add(d)]. *)
Definition Add (t : Time) (d : Duration) : Time := t + d.

(** [t.Sub(u)]: the difference, held at the smallest or largest
    [Duration] when it does not fit. *)
Definition Sub (t u : Time) : Duration :=
  let d := t - u in
  if d <? minDuration then minDuration
  else if maxDuration <? d then maxDuration
  else d.

(** [d.Seconds()]: whole seconds plus the nanosecond remainder over 1e9,
    as the rational it denotes, in lowest terms. The source computes the
    sum in float64: for a whole number of seconds that is this number, for
    others the float64 next to it. *)
Definition Seconds (d : Duration) : Q :=
  Qred (inject_Z (Z.quot d Second) + inject_Z (Z.rem d Second) / inject_Z Second).

End time.

(** ** internal/correlator *)

Module correlator.

Import ami.

(** [CallState] is a string type with three named constants. The
    correlator makes its changes with these three and with no other value,
    and they are what is held here. *)
Inductive CallState := StateRinging | StateAnswered | StateHungUp.

Record Endpoint := { Extension : string; Name : string }.

Record CallStateChange := {
  State : CallState;
  CallID : string;
  From : Endpoint;
  To : Endpoint;
  Timestamp : time.Time;
  RingDuration : Q;
  Cause : string;
  CauseDescription : string;
  CauseCode : Z;
  TalkDuration : Q;
  TotalDuration : Q
}.

Record CauseInfo := { CauseName : string; Description : string }.

Definition HangupCause : gmap Z CauseInfo :=
  list_to_map
    [ (0, {| CauseName := "unknown"; Description := "Unknown or no cause provided" |});
      (16, {| CauseName := "normal_clearing";
              Description := "The call was hung up normally by one of the parties" |});
      (17, {| CauseName := "user_busy"; Description := "The destination was busy" |});
      (18, {| CauseName := "no_answer"; Description := "The destination did not answer" |});
      (19, {| CauseName := "no_answer";
              Description := "The destination did not answer within the timeout" |});
      (21, {| CauseName := "call_rejected";
              Description := "The call was rejected by the destination" |});
      (31, {| CauseName := "normal_unspecified";
              Description := "Normal call clearing, unspecified cause" |});
      (34, {| CauseName := "congestion";
              Description := "All circuits are busy or no circuit is available" |});
      (127, {| CauseName := "interworking";
               Description := "An interworking error occurred" |}) ].

Record callState := {
  linkedID : string;
  from : Endpoint;
  to : Endpoint;
  ringTime : time.Time;
  answerTime : time.Time;
  answered : bool;
  rung : bool;
  cancelled : bool
}.

(** The correlator's mutable part. Its clock is not a field here: every
    operation that reads it takes the reading [now] as an argument ([Process]
    reads the clock at most once). *)
Record Correlator := { calls : gmap string callState }.

Definition New : Correlator := {| calls := ∅ |}.

Definition ActiveCalls (c : Correlator) : nat := size (calls c).

(** The update [c.calls[linkedID] = cs], also what a write through the
    pointer [cs] amounts to. *)
Definition store (c : Correlator) (linkedID : string) (cs : callState) : Correlator :=
  {| calls := <[linkedID := cs]> (calls c) |}.

Definition handleNewchannel (c : Correlator) (evt : Event) (linkedID : string)
  : list CallStateChange * Correlator :=
  match calls c !! linkedID with
  | Some _ => ([], c)
  | None =>
      ([], store c linkedID
             {| linkedID := linkedID;
                from := {| Extension := Get evt "CallerIDNum";
                           Name := Get evt "CallerIDName" |};
                to := {| Extension := Get evt "Exten"; Name := "" |};
                ringTime := 0; answerTime := 0;
                answered := false; rung := false; cancelled := false |})
  end.

Definition set_to_Name (cs : callState) (name : string) : callState :=
  {| linkedID := linkedID cs; from := from cs;
     to := {| Extension := Extension (to cs); Name := name |};
     ringTime := ringTime cs; answerTime := answerTime cs;
     answered := answered cs; rung := rung cs; cancelled := cancelled cs |}.

Definition set_rung (cs : callState) (now : time.Time) : callState :=
  {| linkedID := linkedID cs; from := from cs; to := to cs;
     ringTime := now; answerTime := answerTime cs;
     answered := answered cs; rung := true; cancelled := cancelled cs |}.

Definition set_answered (cs : callState) (now : time.Time) : callState :=
  {| linkedID := linkedID cs; from := from cs; to := to cs;
     ringTime := ringTime cs; answerTime := now;
     answered := true; rung := rung cs; cancelled := cancelled cs |}.

Definition set_cancelled (cs : callState) : callState :=
  {| linkedID := linkedID cs; from := from cs; to := to cs;
     ringTime := ringTime cs; answerTime := answerTime cs;
     answered := answered cs; rung := rung cs; cancelled := true |}.

Definition handleDialBegin (c : Correlator) (evt : Event) (linkedID : string)
  : list CallStateChange * Correlator :=
  match calls c !! linkedID with
  | None => ([], c)
  | Some cs =>
      if bool_decide (Name (to cs) = "") then
        let name := Get evt "DestCallerIDName" in
        if bool_decide (name ≠ "") then ([], store c linkedID (set_to_Name cs name))
        else ([], c)
      else ([], c)
  end.

Definition handleNewstate (c : Correlator) (evt : Event) (linkedID : string)
    (now : time.Time) : list CallStateChange * Correlator :=
  match calls c !! linkedID with
  | None => ([], c)
  | Some cs =>
      let stateDesc := Get evt "ChannelStateDesc" in
      if bool_decide (stateDesc = "Ringing") then
        if rung cs then ([], c)
        else
          ([ {| State := StateRinging; CallID := linkedID;
                From := from cs; To := to cs; Timestamp := now;
                RingDuration := 0; Cause := ""; CauseDescription := "";
                CauseCode := 0; TalkDuration := 0; TotalDuration := 0 |} ],
           store c linkedID (set_rung cs now))
      else if bool_decide (stateDesc = "Up") then
        if answered cs then ([], c)
        else
          let ringDur :=
            if negb (time.IsZero (ringTime cs))
            then time.Seconds (time.Sub now (ringTime cs)) else 0%Q in
          ([ {| State := StateAnswered; CallID := linkedID;
                From := from cs; To := to cs; Timestamp := now;
                RingDuration := ringDur; Cause := ""; CauseDescription := "";
                CauseCode := 0; TalkDuration := 0; TotalDuration := 0 |} ],
           store c linkedID (set_answered cs now))
      else ([], c)
  end.

Definition handleDialEnd (c : Correlator) (evt : Event) (linkedID : string)
  : list CallStateChange * Correlator :=
  match calls c !! linkedID with
  | None => ([], c)
  | Some cs =>
      if bool_decide (Get evt "DialStatus" = "CANCEL")
      then ([], store c linkedID (set_cancelled cs))
      else ([], c)
  end.

Definition handleHangup (c : Correlator) (evt : Event) (linkedID : string)
    (now : time.Time) : list CallStateChange * Correlator :=
  match calls c !! linkedID with
  | None => ([], c)
  | Some cs =>
      let uniqueID := Get evt "Uniqueid" in
      if bool_decide (uniqueID ≠ linkedID) then ([], c)
      else
        let causeCode := GetInt evt "Cause" in
        let cause : string * string :=
          if cancelled cs && negb (answered cs) then
            ("cancelled",
             "The call was cancelled by the caller before being answered")
          else
            match HangupCause !! causeCode with
            | Some info => (CauseName info, Description info)
            | None => ("unknown", "Unknown or no cause provided")
            end in
        let talkDur :=
          if answered cs && negb (time.IsZero (answerTime cs))
          then time.Seconds (time.Sub now (answerTime cs)) else 0%Q in
        let totalDur :=
          if negb (time.IsZero (ringTime cs))
          then time.Seconds (time.Sub now (ringTime cs)) else 0%Q in
        ([ {| State := StateHungUp; CallID := linkedID;
              From := from cs; To := to cs; Timestamp := now;
              RingDuration := 0; Cause := cause.1;
              CauseDescription := cause.2; CauseCode := causeCode;
              TalkDuration := talkDur; TotalDuration := totalDur |} ],
         {| calls := delete linkedID (calls c) |})
  end.

(** [Process]: one event in, the changes it causes out, with the
    correlator as it is afterwards. *)
Definition Process (c : Correlator) (evt : Event) (now : time.Time)
  : list CallStateChange * Correlator :=
  if IsResponse evt then ([], c)
  else
    let linkedID := Get evt "Linkedid" in
    if bool_decide (linkedID = "") then ([], c)
    else
      let ty := Type_ evt in
      if bool_decide (ty = "Newchannel") then handleNewchannel c evt linkedID
      else if bool_decide (ty = "DialBegin") then handleDialBegin c evt linkedID
      else if bool_decide (ty = "Newstate") then handleNewstate c evt linkedID now
      else if bool_decide (ty = "DialEnd") then handleDialEnd c evt linkedID
      else if bool_decide (ty = "Hangup") then handleHangup c evt linkedID now
      else ([], c).

(** The driving loop (as [processAll] in the tests, and the bridge): the
    events in arrival order, each with the clock reading during its
    [Process] call; the changes are appended in emission order. *)
Fixpoint ProcessAll (c : Correlator) (evts : list (Event * time.Time))
  : list CallStateChange * Correlator :=
  match evts with
  | [] => ([], c)
  | (evt, now) :: evts' =>
      let '(out, c1) := Process c evt now in
      let '(outs, c2) := ProcessAll c1 evts' in
      (out ++ outs, c2)
  end.

End correlator.

(** ** Properties *)

Import ami correlator.

(** *** Vocabulary of the specification *)

(** The call id of a record (its call-group id field). *)
Definition call_id (evt : Event) : string := Get evt "Linkedid".

(** The per-leg id of a record. *)
Definition leg_id (evt : Event) : string := Get evt "Uniqueid".

(** A notification of kind [ty] that takes part in correlation: not an
    acknowledgement, and carrying a call id. *)
Definition notification (ty : string) (evt : Event) : bool :=
  negb (IsResponse evt) && bool_decide (call_id evt ≠ "")
  && bool_decide (Type_ evt = ty).

(** A creation notification whose call id is not tracked. *)
Definition opens (c : Correlator) (evt : Event) : bool :=
  notification "Newchannel" evt && bool_decide (calls c !! call_id evt = None).

(** A primary-leg termination for a tracked call. *)
Definition finalizes (c : Correlator) (evt : Event) : bool :=
  notification "Hangup" evt && bool_decide (leg_id evt = call_id evt)
  && bool_decide (is_Some (calls c !! call_id evt)).

(** The Cause Translator: the table, with [unknown] for absent codes. *)
Definition CauseTranslator (code : Z) : CauseInfo :=
  default {| CauseName := "unknown"; Description := "Unknown or no cause provided" |}
          (HangupCause !! code).

Definition cancelled_description : string :=
  "The call was cancelled by the caller before being answered".

(** *** The transitions of [Process]

    Every call of [Process] is one of seven transitions; the record values
    and changes below are the struct literals of the handlers. *)

Definition fresh_record (evt : Event) : callState :=
  {| linkedID := call_id evt;
     from := {| Extension := Get evt "CallerIDNum"; Name := Get evt "CallerIDName" |};
     to := {| Extension := Get evt "Exten"; Name := "" |};
     ringTime := 0; answerTime := 0;
     answered := false; rung := false; cancelled := false |}.

Definition plain_change (st : CallState) (id : string) (cs : callState)
    (now : time.Time) : CallStateChange :=
  {| State := st; CallID := id; From := from cs; To := to cs; Timestamp := now;
     RingDuration := 0; Cause := ""; CauseDescription := ""; CauseCode := 0;
     TalkDuration := 0; TotalDuration := 0 |}.

Definition ring_duration (cs : callState) (now : time.Time) : Q :=
  if time.IsZero (ringTime cs) then 0%Q
  else time.Seconds (time.Sub now (ringTime cs)).

Definition talk_duration (cs : callState) (now : time.Time) : Q :=
  if answered cs && negb (time.IsZero (answerTime cs))
  then time.Seconds (time.Sub now (answerTime cs)) else 0%Q.

Definition resolve_cause (cs : callState) (code : Z) : CauseInfo :=
  if cancelled cs && negb (answered cs)
  then {| CauseName := "cancelled"; Description := cancelled_description |}
  else CauseTranslator code.

Inductive step (c : Correlator) (evt : Event) (now : time.Time)
  : list CallStateChange → Correlator → Prop :=
| step_ignored :
    step c evt now [] c
| step_opened :
    calls c !! call_id evt = None →
    step c evt now [] (store c (call_id evt) (fresh_record evt))
| step_named cs name :
    calls c !! call_id evt = Some cs →
    step c evt now [] (store c (call_id evt) (set_to_Name cs name))
| step_rung cs :
    calls c !! call_id evt = Some cs → rung cs = false →
    step c evt now [plain_change StateRinging (call_id evt) cs now]
         (store c (call_id evt) (set_rung cs now))
| step_answered cs ch :
    calls c !! call_id evt = Some cs → answered cs = false →
    ch = {| State := StateAnswered; CallID := call_id evt;
            From := from cs; To := to cs; Timestamp := now;
            RingDuration := ring_duration cs now;
            Cause := ""; CauseDescription := ""; CauseCode := 0;
            TalkDuration := 0; TotalDuration := 0 |} →
    step c evt now [ch] (store c (call_id evt) (set_answered cs now))
| step_cancelled cs :
    calls c !! call_id evt = Some cs →
    step c evt now [] (store c (call_id evt) (set_cancelled cs))
| step_finalized cs ch :
    calls c !! call_id evt = Some cs →
    leg_id evt = call_id evt →
    ch = {| State := StateHungUp; CallID := call_id evt;
            From := from cs; To := to cs; Timestamp := now;
            RingDuration := 0;
            Cause := CauseName (resolve_cause cs (GetInt evt "Cause"));
            CauseDescription := Description (resolve_cause cs (GetInt evt "Cause"));
            CauseCode := GetInt evt "Cause";
            TalkDuration := talk_duration cs now;
            TotalDuration := ring_duration cs now |} →
    step c evt now [ch] {| calls := delete (call_id evt) (calls c) |}.

(** Case analysis on the next decision of the dispatch. *)
Ltac case_decision :=
  match goal with
  | |- context [bool_decide ?P] =>
      destruct (decide P);
      [ rewrite !(bool_decide_eq_true_2 P) by assumption
      | rewrite !(bool_decide_eq_false_2 P) by assumption ]
  end.

Lemma Process_step (c : Correlator) (evt : Event) (now : time.Time) :
  step c evt now (Process c evt now).1 (Process c evt now).2.
Proof.
  unfold Process.
  destruct (IsResponse evt); simpl; [apply step_ignored|].
  case_decision; [apply step_ignored|].
  case_decision.
  { unfold handleNewchannel.
    destruct (calls c !! Get evt "Linkedid") as [cs|] eqn:Hl; simpl.
    - apply step_ignored.
    - by apply step_opened. }
  case_decision.
  { unfold handleDialBegin.
    destruct (calls c !! Get evt "Linkedid") as [cs|] eqn:Hl; simpl;
      [|apply step_ignored].
    repeat case_decision; simpl; try apply step_ignored.
    by apply step_named. }
  case_decision.
  { unfold handleNewstate.
    destruct (calls c !! Get evt "Linkedid") as [cs|] eqn:Hl; simpl;
      [|apply step_ignored].
    case_decision.
    - destruct (rung cs) eqn:Hr; simpl; [apply step_ignored|].
      by apply step_rung.
    - case_decision; [|apply step_ignored].
      destruct (answered cs) eqn:Ha; simpl; [apply step_ignored|].
      eapply step_answered; [done..|].
      unfold ring_duration. by destruct (time.IsZero (ringTime cs)). }
  case_decision.
  { unfold handleDialEnd.
    destruct (calls c !! Get evt "Linkedid") as [cs|] eqn:Hl; simpl;
      [|apply step_ignored].
    case_decision; simpl; [|apply step_ignored].
    by apply step_cancelled. }
  case_decision; [|apply step_ignored].
  unfold handleHangup.
  destruct (calls c !! Get evt "Linkedid") as [cs|] eqn:Hl; simpl;
    [|apply step_ignored].
  case_decision; [apply step_ignored|].
  assert (leg_id evt = call_id evt) as Hleg.
  { unfold leg_id, call_id.
    by destruct (decide (Get evt "Uniqueid" = Get evt "Linkedid")). }
  eapply step_finalized; [done..|].
  unfold resolve_cause, CauseTranslator, talk_duration, ring_duration.
  destruct (cancelled cs && negb (answered cs)); simpl;
    [|destruct (HangupCause !! GetInt evt "Cause") as [info|]; simpl];
    by destruct (time.IsZero (ringTime cs)).
Qed.

(** *** One record, at most one change *)

Lemma step_length (c : Correlator) (evt : Event) (now : time.Time)
    (o : list CallStateChange) (c' : Correlator) :
  step c evt now o c' → (length o <= 1)%nat.
Proof. destruct 1; simpl; lia. Qed.

(** C8: whatever the correlator state and the record, [Process] emits at
    most one CallStateChange. *)
Theorem Process_emits_at_most_one (c : Correlator) (evt : Event) (now : time.Time) :
  (length (Process c evt now).1 <= 1)%nat.
Proof. eapply step_length, Process_step. Qed.

(** *** The tracked call ids *)

Lemma opens_spec (c : Correlator) (evt : Event) :
  opens c evt = true ↔
  IsResponse evt = false ∧ call_id evt ≠ "" ∧ Type_ evt = "Newchannel"
  ∧ calls c !! call_id evt = None.
Proof.
  unfold opens, notification.
  rewrite !andb_true_iff, negb_true_iff, !bool_decide_eq_true. tauto.
Qed.

Lemma finalizes_spec (c : Correlator) (evt : Event) :
  finalizes c evt = true ↔
  IsResponse evt = false ∧ call_id evt ≠ "" ∧ Type_ evt = "Hangup"
  ∧ leg_id evt = call_id evt ∧ is_Some (calls c !! call_id evt).
Proof.
  unfold finalizes, notification.
  rewrite !andb_true_iff, negb_true_iff, !bool_decide_eq_true. tauto.
Qed.

Lemma Process_opens (c : Correlator) (evt : Event) (now : time.Time) :
  opens c evt = true →
  Process c evt now = ([], store c (call_id evt) (fresh_record evt)).
Proof.
  intros (Hr & Hid & Hty & Hl)%opens_spec. unfold call_id in *.
  unfold Process, handleNewchannel. rewrite Hr.
  rewrite (bool_decide_eq_false_2 _ Hid), (bool_decide_eq_true_2 _ Hty).
  by rewrite Hl.
Qed.

Lemma Process_finalizes (c : Correlator) (evt : Event) (now : time.Time) :
  finalizes c evt = true →
  (Process c evt now).2 = {| calls := delete (call_id evt) (calls c) |}.
Proof.
  intros (Hr & Hid & Hty & Hleg & [cs Hl])%finalizes_spec.
  unfold call_id, leg_id in *.
  unfold Process, handleHangup. rewrite Hr.
  rewrite (bool_decide_eq_false_2 _ Hid), Hty. simpl.
  rewrite Hl, (bool_decide_eq_false_2 (_ ≠ _)) by (by intros []).
  done.
Qed.

Lemma Process_dom_other (c : Correlator) (evt : Event) (now : time.Time) :
  opens c evt = false → finalizes c evt = false →
  dom (calls (Process c evt now).2) = dom (calls c).
Proof.
  intros Ho Hf.
  assert (∀ cs cs', calls c !! call_id evt = Some cs →
            dom (<[call_id evt := cs']> (calls c)) = dom (calls c)) as Hkeep.
  { intros cs cs' Hl%elem_of_dom_2. rewrite dom_insert_L.
    apply subseteq_union_1_L, singleton_subseteq_l, Hl. }
  unfold Process in *.
  destruct (IsResponse evt) eqn:Hr; [done|].
  case_decision; [done|].
  case_decision.
  { unfold handleNewchannel.
    destruct (calls c !! Get evt "Linkedid") eqn:Hl; [done|].
    assert (opens c evt = true) by (by apply opens_spec). congruence. }
  case_decision.
  { unfold handleDialBegin.
    destruct (calls c !! Get evt "Linkedid") eqn:Hl; [|done].
    repeat case_decision; simpl; eauto. }
  case_decision.
  { unfold handleNewstate.
    destruct (calls c !! Get evt "Linkedid") as [cs|] eqn:Hl; [|done].
    repeat case_decision; simpl; eauto.
    - destruct (rung cs); simpl; eauto.
    - destruct (answered cs); simpl; eauto. }
  case_decision.
  { unfold handleDialEnd.
    destruct (calls c !! Get evt "Linkedid") eqn:Hl; [|done].
    case_decision; simpl; eauto. }
  case_decision; [|done].
  unfold handleHangup.
  destruct (calls c !! Get evt "Linkedid") eqn:Hl; [|done].
  case_decision; [done|].
  assert (finalizes c evt = true); [|congruence].
  apply finalizes_spec. unfold call_id, leg_id. rewrite Hl.
  repeat split; eauto.
  by destruct (decide (Get evt "Uniqueid" = Get evt "Linkedid")).
Qed.

(** C9: the set of tracked call ids changes in two ways only. A creation
    notification with an untracked call id inserts exactly that id; a
    primary-leg termination of a tracked call removes exactly that id; any
    other record leaves the set as it was. *)
Theorem tracked_ids_change_two_ways (c : Correlator) (evt : Event) (now : time.Time) :
  let ids := dom (calls c) in
  let ids' := dom (calls (Process c evt now).2) in
  if opens c evt
  then (call_id evt ∉ ids) ∧ ids' = {[ call_id evt ]} ∪ ids
  else if finalizes c evt
  then (call_id evt ∈ ids) ∧ ids' = ids ∖ {[ call_id evt ]}
  else ids' = ids.
Proof.
  intros ids ids'. subst ids ids'.
  destruct (opens c evt) eqn:Ho.
  - rewrite Process_opens by done. simpl. rewrite dom_insert_L.
    split; [|done]. apply opens_spec in Ho as (_ & _ & _ & Hl).
    by apply not_elem_of_dom.
  - destruct (finalizes c evt) eqn:Hf.
    + rewrite Process_finalizes by done. simpl. rewrite dom_delete_L.
      split; [|done]. apply finalizes_spec in Hf as (_ & _ & _ & _ & Hl).
      by apply elem_of_dom.
    + by apply Process_dom_other.
Qed.

(** *** Termination records *)

Lemma Process_Hangup_primary (c : Correlator) (evt : Event) (now : time.Time)
    (cs : callState) :
  finalizes c evt = true → calls c !! call_id evt = Some cs →
  Process c evt now =
    ([ {| State := StateHungUp; CallID := call_id evt;
          From := from cs; To := to cs; Timestamp := now;
          RingDuration := 0;
          Cause := CauseName (resolve_cause cs (GetInt evt "Cause"));
          CauseDescription := Description (resolve_cause cs (GetInt evt "Cause"));
          CauseCode := GetInt evt "Cause";
          TalkDuration := talk_duration cs now;
          TotalDuration := ring_duration cs now |} ],
     {| calls := delete (call_id evt) (calls c) |}).
Proof.
  intros (Hr & Hid & Hty & Hleg & _)%finalizes_spec Hl.
  unfold call_id, leg_id in *.
  unfold Process, handleHangup. rewrite Hr.
  rewrite (bool_decide_eq_false_2 _ Hid), Hty. simpl.
  rewrite Hl, (bool_decide_eq_false_2 (_ ≠ _)) by (by intros []).
  unfold resolve_cause, CauseTranslator, talk_duration, ring_duration.
  destruct (cancelled cs && negb (answered cs)); simpl;
    [|destruct (HangupCause !! GetInt evt "Cause") as [info|]; simpl];
    by destruct (time.IsZero (ringTime cs)).
Qed.

(** C5: a termination record whose leg id differs from its call id, for a
    call that has a CallRecord, emits nothing, leaves the record in the
    active set and leaves every field of it (indeed the whole correlator) as
    it was. *)
Theorem secondary_leg_termination_ignored (c : Correlator) (evt : Event)
    (now : time.Time) (cs : callState) :
  Type_ evt = "Hangup" →
  leg_id evt ≠ call_id evt →
  calls c !! call_id evt = Some cs →
  (Process c evt now).1 = []
  ∧ calls (Process c evt now).2 !! call_id evt = Some cs
  ∧ (Process c evt now).2 = c.
Proof.
  intros Hty Hleg Hl. unfold call_id, leg_id in *.
  assert (Process c evt now = ([], c)) as ->; [|done].
  unfold Process, handleHangup.
  destruct (IsResponse evt); [done|].
  case_decision; [done|]. rewrite Hty. simpl.
  by rewrite Hl, (bool_decide_eq_true_2 _ Hleg).
Qed.

(** C2: at primary-leg finalization the HungUp change carries the raw
    numeric code of the record. With [cancelled] set and [answered] unset
    its cause name is "cancelled" with the fixed description; in every other
    case name and description are the Cause Translator's for that code. In
    particular, once the call was answered the cancelled flag does not
    matter. *)
Theorem cause_resolution (c : Correlator) (evt : Event) (now : time.Time)
    (cs : callState) :
  finalizes c evt = true →
  calls c !! call_id evt = Some cs →
  ∃ ch, (Process c evt now).1 = [ch]
    ∧ State ch = StateHungUp
    ∧ CauseCode ch = GetInt evt "Cause"
    ∧ (if cancelled cs && negb (answered cs)
       then Cause ch = "cancelled" ∧ CauseDescription ch = cancelled_description
       else Cause ch = CauseName (CauseTranslator (CauseCode ch))
            ∧ CauseDescription ch = Description (CauseTranslator (CauseCode ch)))
    ∧ (answered cs = true →
       Cause ch = CauseName (CauseTranslator (CauseCode ch))
       ∧ CauseDescription ch = Description (CauseTranslator (CauseCode ch))).
Proof.
  intros Hfin Hl. rewrite (Process_Hangup_primary _ _ _ cs) by done.
  eexists. split; [done|]. simpl. unfold resolve_cause.
  split; [done|]. split; [done|]. split.
  - by destruct (cancelled cs && negb (answered cs)).
  - intros ->. by rewrite andb_false_r.
Qed.

(** *** The integer accessor *)

Lemma Atoi_syntax_error (s : string) :
  (strconv.Atoi s).2 = Some strconv.ErrSyntax → (strconv.Atoi s).1 = 0.
Proof.
  unfold strconv.Atoi, strconv.ParseInt.
  repeat case_match; simpl; congruence.
Qed.


(** C7, at the input where it fails: the value of the field is numeric but
    does not fit an int; [Atoi] reports a range error together with the
    largest int, and [GetInt] passes that number on instead of 0. *)
Theorem GetInt_out_of_range :
  let evt := NewEvent ["Event"; "Hangup"; "Cause"; "9223372036854775808"] in
  strconv.Atoi (Get evt "Cause") = (9223372036854775807, Some strconv.ErrRange)
  ∧ GetInt evt "Cause" = 9223372036854775807
  ∧ GetInt evt "Cause" ≠ 0.
Proof. by vm_compute. Qed.

(** *** The reader: lines without the separator *)

Lemma TrimRight_CR_dropCR (s : string) :
  strings.TrimRight_CR (bufio.dropCR s) = strings.TrimRight_CR s.
Proof.
  induction s as [|c s IH]; [done|].
  destruct s as [|c' s].
  - cbn [bufio.dropCR strings.TrimRight_CR].
    destruct (bool_decide (c = "013"%char)) eqn:Hc; [done|].
    cbn [strings.TrimRight_CR]. by rewrite Hc.
  - change (bufio.dropCR (String c (String c' s)))
      with (String c (bufio.dropCR (String c' s))).
    change (strings.TrimRight_CR (String c (bufio.dropCR (String c' s))))
      with (match strings.TrimRight_CR (bufio.dropCR (String c' s)) with
            | EmptyString => if bool_decide (c = "013"%char) then EmptyString
                             else String c EmptyString
            | t => String c t
            end).
    by rewrite IH.
Qed.

(** A line below the limit of the scanner is the next answer of [Scan]. *)
Lemma NewParser_short (after : string → Parser) (raw : string) (r : list string) :
  Z.of_nat (String.length raw) < bufio.MaxScanTokenSize →
  NewParser after (raw :: r)
  = Some (bufio.dropCR raw) :: NewParser after r.
Proof.
  intros Hlen. unfold NewParser. cbn [bufio.NewScanner].
  apply Z.ltb_lt in Hlen. by rewrite Hlen.
Qed.

(** What [Next] does with a line the scanner delivers. *)
Lemma Next_loop_line (hs : list header) (raw : string) (p : Parser) :
  Next_loop hs (Some (bufio.dropCR raw) :: p) =
  let line := strings.TrimRight_CR raw in
  if bool_decide (line = "") then
    match hs with
    | [] => Next_loop hs p
    | _ => (Some {| headers := hs |}, p)
    end
  else
    let idx := strings.Index line ": " in
    if idx <? 0 then
      match hs with
      | [] => Next_loop hs p
      | _ => Next_loop (hs ++ [{| Key := ""; Value := line |}]) p
      end
    else
      Next_loop (hs ++ [{| Key := strings.slice_to line idx;
                           Value := strings.slice_from line (idx + 2) |}]) p.
Proof. cbn [Next_loop]. by rewrite TrimRight_CR_dropCR. Qed.

(** A record in progress is always delivered, and begins with the pairs
    captured so far. *)
Lemma Next_loop_in_progress (p : Parser) (hs : list header) :
  hs ≠ [] →
  ∃ evt p', Next_loop hs p = (Some evt, p') ∧ hs `prefix_of` headers evt.
Proof.
  revert hs. induction p as [|[text|] p IH]; intros hs Hhs.
  - destruct hs; [done|]. simpl. by eexists _, _.
  - assert (∀ h, ∃ evt p',
        Next_loop (hs ++ [h]) p = (Some evt, p') ∧ hs `prefix_of` headers evt)
      as Hgrow.
    { intros h. destruct (IH (hs ++ [h])) as (evt & p' & Heq & Hpre).
      - by destruct hs.
      - exists evt, p'. split; [done|].
        etrans; [|done]. by apply prefix_app_r. }
    simpl. case_decision.
    + destruct hs; [done|]. by eexists _, _.
    + destruct (strings.Index _ _ <? 0); [|by apply Hgrow].
      destruct hs; [done|]. apply Hgrow.
  - destruct hs; [done|]. simpl. by eexists _, _.
Qed.

(** Each delivered event uses up at least one answer of the scanner. *)
Lemma Next_loop_consumes (p : Parser) (hs : list header) (evt : Event) (p' : Parser) :
  Next_loop hs p = (Some evt, p') →
  (length p' <= length p)%nat ∧ (hs = [] → (length p' < length p)%nat).
Proof.
  revert hs. induction p as [|[text|] p IH]; intros hs; simpl.
  - destruct hs; [done|]. intros [= <- <-]. split; [done|]. done.
  - case_decision.
    + destruct hs.
      * intros [? _]%IH. split; [lia|]. intros _. lia.
      * intros [= <- <-]. split; [lia|done].
    + destruct (strings.Index _ _ <? 0).
      * destruct hs.
        -- intros [? _]%IH. split; [lia|]. intros _. lia.
        -- intros [? _]%IH. split; [lia|done].
      * intros [? _]%IH. split; [lia|]. intros _. lia.
  - destruct hs; [done|]. intros [= <- <-]. split; [lia|done].
Qed.

(** More rounds than answers change nothing. *)
Lemma ParseAll_fuel_enough (n m : nat) (p : Parser) :
  (length p < n)%nat → (length p < m)%nat →
  ParseAll_fuel n p = ParseAll_fuel m p.
Proof.
  revert m p. induction n as [|n IH]; intros m p Hn Hm; [lia|].
  destruct m as [|m]; [lia|]. simpl.
  destruct (Next p) as [[evt|] p'] eqn:Hnext; [|done].
  apply Next_loop_consumes in Hnext as [_ Hlt]. specialize (Hlt eq_refl).
  f_equal. apply IH; lia.
Qed.

(** [ParseAll] is [Next], then [ParseAll] on the parser left behind. *)
Lemma ParseAll_unfold (p : Parser) :
  ParseAll p = match Next p with
               | (Some evt, p') => evt :: ParseAll p'
               | (None, _) => []
               end.
Proof.
  unfold ParseAll at 1. cbn [ParseAll_fuel].
  destruct (Next p) as [[evt|] p'] eqn:Hnext; [|done].
  apply Next_loop_consumes in Hnext as [_ Hlt]. specialize (Hlt eq_refl).
  f_equal. apply ParseAll_fuel_enough; lia.
Qed.

(** C6, for the lines the scanner delivers: a line of the input shorter than
    [bufio.MaxScanTokenSize] bytes without the ": " separator (and not
    blank, a blank line being the record terminator). With no pair captured
    for the record in progress the line is dropped: [Next], and so
    [ParseAll], answer as if it were not in the input. With a pair
    captured, the record that is delivered contains, right after the pairs
    captured so far, a pair with the empty key and the whole line, carriage
    returns stripped, as value. The lines behind it may be of any length,
    and [after] anything. *)
Theorem line_without_separator (after : string → Parser) (hs : list header)
    (raw : string) (r : list string) :
  let line := strings.TrimRight_CR raw in
  Z.of_nat (String.length raw) < bufio.MaxScanTokenSize →
  line ≠ "" →
  strings.Index line ": " < 0 →
  (hs = [] →
     Next_loop hs (NewParser after (raw :: r))
     = Next_loop [] (NewParser after r)
     ∧ ParseAll (NewParser after (raw :: r)) = ParseAll (NewParser after r))
  ∧ (hs ≠ [] →
     Next_loop hs (NewParser after (raw :: r))
     = Next_loop (hs ++ [{| Key := ""; Value := line |}]) (NewParser after r)
     ∧ ∃ evt p', Next_loop hs (NewParser after (raw :: r)) = (Some evt, p')
         ∧ (hs ++ [{| Key := ""; Value := line |}]) `prefix_of` headers evt).
Proof.
  intros line Hlen Hline Hidx. subst line.
  rewrite (NewParser_short after raw r Hlen).
  set (p := NewParser after r).
  assert (∀ hs', Next_loop hs' (Some (bufio.dropCR raw) :: p) =
     match hs' with
     | [] => Next_loop [] p
     | _ => Next_loop (hs' ++ [{| Key := ""; Value := strings.TrimRight_CR raw |}]) p
     end) as Hstep.
  { intros hs'. rewrite Next_loop_line. cbv zeta.
    rewrite (bool_decide_eq_false_2 _ Hline).
    apply Z.ltb_lt in Hidx. rewrite Hidx. by destruct hs'. }
  split.
  - intros ->. split; [by rewrite Hstep|].
    rewrite (ParseAll_unfold (_ :: p)), (ParseAll_unfold p).
    unfold Next. by rewrite Hstep.
  - intros Hhs. rewrite Hstep. destruct hs as [|h hs]; [done|].
    split; [done|]. apply Next_loop_in_progress. by destruct hs.
Qed.

(** *** State notifications *)

Lemma notification_spec (ty : string) (evt : Event) :
  notification ty evt = true ↔
  IsResponse evt = false ∧ call_id evt ≠ "" ∧ Type_ evt = ty.
Proof.
  unfold notification.
  rewrite !andb_true_iff, negb_true_iff, !bool_decide_eq_true. tauto.
Qed.

Lemma Process_Newstate (c : Correlator) (evt : Event) (now : time.Time) :
  notification "Newstate" evt = true →
  Process c evt now = handleNewstate c evt (call_id evt) now.
Proof.
  intros (Hr & Hid & Hty)%notification_spec. unfold call_id in *.
  unfold Process. rewrite Hr, (bool_decide_eq_false_2 _ Hid), Hty. done.
Qed.

Lemma Process_Ringing (c : Correlator) (evt : Event) (now : time.Time)
    (cs : callState) :
  notification "Newstate" evt = true →
  Get evt "ChannelStateDesc" = "Ringing" →
  calls c !! call_id evt = Some cs → rung cs = false →
  Process c evt now =
    ([plain_change StateRinging (call_id evt) cs now],
     store c (call_id evt) (set_rung cs now)).
Proof.
  intros Hn Hdesc Hl Hrung. rewrite Process_Newstate by done.
  unfold handleNewstate. by rewrite Hl, Hdesc, Hrung.
Qed.

Lemma Process_Up (c : Correlator) (evt : Event) (now : time.Time)
    (cs : callState) :
  notification "Newstate" evt = true →
  Get evt "ChannelStateDesc" = "Up" →
  calls c !! call_id evt = Some cs → answered cs = false →
  Process c evt now =
    ([ {| State := StateAnswered; CallID := call_id evt;
          From := from cs; To := to cs; Timestamp := now;
          RingDuration := ring_duration cs now;
          Cause := ""; CauseDescription := ""; CauseCode := 0;
          TalkDuration := 0; TotalDuration := 0 |} ],
     store c (call_id evt) (set_answered cs now)).
Proof.
  intros Hn Hdesc Hl Hans. rewrite Process_Newstate by done.
  unfold handleNewstate. rewrite Hl, Hdesc, Hans. simpl.
  unfold ring_duration. by destruct (time.IsZero (ringTime cs)).
Qed.

(** *** Durations *)

Lemma Sub_Add (t : time.Time) (d : time.Duration) :
  time.minDuration <= d <= time.maxDuration →
  time.Sub (time.Add t d) t = d.
Proof.
  intros [Hlo Hhi]. unfold time.Sub, time.Add.
  replace (t + d - t) with d by lia.
  destruct (Z.ltb_spec d time.minDuration); [lia|].
  destruct (Z.ltb_spec time.maxDuration d); [lia|done].
Qed.

Lemma Sub_Add_Add (t : time.Time) (d1 d2 : time.Duration) :
  time.minDuration <= d2 - d1 <= time.maxDuration →
  time.Sub (time.Add t d2) (time.Add t d1) = d2 - d1.
Proof.
  intros [Hlo Hhi]. unfold time.Sub, time.Add.
  replace (t + d2 - (t + d1)) with (d2 - d1) by lia.
  destruct (Z.ltb_spec (d2 - d1) time.minDuration); [lia|].
  destruct (Z.ltb_spec time.maxDuration (d2 - d1)); [lia|done].
Qed.

Lemma IsZero_false (t : time.Time) : 0 < t → time.IsZero t = false.
Proof. intros Ht. unfold time.IsZero. apply Z.eqb_neq. lia. Qed.

(** *** Scenario A *)

(** The records of the scenario, by the fields the correlator reads. *)
Definition creation_of (evt : Event) (id num name ext : string) : Prop :=
  notification "Newchannel" evt = true ∧ call_id evt = id
  ∧ Get evt "CallerIDNum" = num ∧ Get evt "CallerIDName" = name
  ∧ Get evt "Exten" = ext.

Definition state_notification_of (evt : Event) (id desc : string) : Prop :=
  notification "Newstate" evt = true ∧ call_id evt = id
  ∧ Get evt "ChannelStateDesc" = desc.

Definition primary_termination_of (evt : Event) (id : string) (code : Z) : Prop :=
  notification "Hangup" evt = true ∧ call_id evt = id ∧ leg_id evt = id
  ∧ GetInt evt "Cause" = code.

(** C1: creation (from 1986 "Martin", to 21) at t0, ringing at t0, answer
    at t0+5s and primary-leg termination with cause 16 at t0+35s, all for
    one call id and with t0 later than the zero instant, fed to a new
    correlator: exactly three changes, Ringing at t0, Answered at t0+5s with
    ring_duration 5, HungUp at t0+35s with cause normal_clearing, code 16,
    talk_duration 30 and total_duration 35. *)
Theorem scenario_A (id : string) (t0 : time.Time) (e1 e2 e3 e4 : Event) :
  0 < t0 →
  creation_of e1 id "1986" "Martin" "21" →
  state_notification_of e2 id "Ringing" →
  state_notification_of e3 id "Up" →
  primary_termination_of e4 id 16 →
  let martin := {| Extension := "1986"; Name := "Martin" |} in
  let ext21 := {| Extension := "21"; Name := "" |} in
  (ProcessAll New
     [ (e1, t0); (e2, t0);
       (e3, time.Add t0 (5 * time.Second));
       (e4, time.Add t0 (35 * time.Second)) ]).1
  = [ {| State := StateRinging; CallID := id; From := martin; To := ext21;
         Timestamp := t0;
         RingDuration := 0; Cause := ""; CauseDescription := "";
         CauseCode := 0; TalkDuration := 0; TotalDuration := 0 |};
      {| State := StateAnswered; CallID := id; From := martin; To := ext21;
         Timestamp := time.Add t0 (5 * time.Second);
         RingDuration := 5; Cause := ""; CauseDescription := "";
         CauseCode := 0; TalkDuration := 0; TotalDuration := 0 |};
      {| State := StateHungUp; CallID := id; From := martin; To := ext21;
         Timestamp := time.Add t0 (35 * time.Second);
         RingDuration := 0; Cause := "normal_clearing";
         CauseDescription := "The call was hung up normally by one of the parties";
         CauseCode := 16; TalkDuration := 30; TotalDuration := 35 |} ].
Proof.
  intros Ht0 (Hn1 & Hid1 & Hnum & Hname & Hext) (Hn2 & Hid2 & Hd2)
    (Hn3 & Hid3 & Hd3) (Hn4 & Hid4 & Hleg & Hcode) martin ext21.
  pose proof Hn1 as (Hr1 & Hne1 & Hty1)%notification_spec.
  pose proof Hn4 as (Hr4 & Hne4 & Hty4)%notification_spec.
  assert (opens New e1 = true) as Ho1.
  { apply opens_spec. exact (conj Hr1 (conj Hne1 (conj Hty1 (lookup_empty _)))). }
  cbn [ProcessAll].
  rewrite (Process_opens New e1 t0 Ho1).
  set (cs1 := fresh_record e1).
  assert (calls (store New (call_id e1) cs1) !! call_id e2 = Some cs1) as Hl2.
  { rewrite Hid2, Hid1. apply lookup_insert_eq. }
  rewrite (Process_Ringing _ e2 t0 cs1 Hn2 Hd2 Hl2 eq_refl).
  set (cs2 := set_rung cs1 t0).
  set (c2 := store _ (call_id e2) cs2).
  assert (calls c2 !! call_id e3 = Some cs2) as Hl3.
  { subst c2. rewrite Hid3, Hid2. apply lookup_insert_eq. }
  rewrite (Process_Up c2 e3 _ cs2 Hn3 Hd3 Hl3 eq_refl).
  set (cs3 := set_answered cs2 (time.Add t0 (5 * time.Second))).
  set (c3 := store c2 (call_id e3) cs3).
  assert (calls c3 !! call_id e4 = Some cs3) as Hl4.
  { subst c3. rewrite Hid4, Hid3. apply lookup_insert_eq. }
  assert (finalizes c3 e4 = true) as Hf4.
  { apply finalizes_spec. rewrite Hl4, Hleg, Hid4.
    exact (conj Hr4 (conj (eq_ind _ (λ x, x ≠ "") Hne4 _ Hid4) (conj Hty4 (conj eq_refl (mk_is_Some _ _ eq_refl))))). }
  rewrite (Process_Hangup_primary c3 e4 _ cs3 Hf4 Hl4).
  cbn [fst snd app].
  unfold plain_change, ring_duration, talk_duration, resolve_cause.
  subst cs3 cs2 cs1.
  cbn [from to ringTime answerTime answered rung cancelled set_answered set_rung fresh_record andb negb].
  rewrite Hid2, Hid3, Hid4, Hnum, Hname, Hext, Hcode.
  rewrite (IsZero_false t0 Ht0).
  rewrite (IsZero_false (time.Add t0 (5 * time.Second)))
    by (unfold time.Add, time.Second; lia).
  rewrite (Sub_Add t0 (5 * time.Second)) by (vm_compute; split; discriminate).
  rewrite (Sub_Add t0 (35 * time.Second)) by (vm_compute; split; discriminate).
  rewrite (Sub_Add_Add t0 (5 * time.Second) (35 * time.Second))
    by (vm_compute; split; discriminate).
  cbn [negb].
  assert (CauseTranslator 16 =
            {| CauseName := "normal_clearing";
               Description := "The call was hung up normally by one of the parties" |})
    as -> by (vm_compute; reflexivity).
  assert (time.Seconds (5 * time.Second) = 5%Q) as -> by (vm_compute; reflexivity).
  assert (time.Seconds (35 * time.Second) = 35%Q) as -> by (vm_compute; reflexivity).
  assert (time.Seconds (35 * time.Second - 5 * time.Second) = 30%Q) as ->
    by (vm_compute; reflexivity).
  reflexivity.
Qed.

(** *** Changes per call id *)

#[global] Instance CallState_eq_dec : EqDecision CallState.
Proof. solve_decision. Defined.

(** How many changes of state [st] for call [id] a run has emitted. *)
Definition emitted (st : CallState) (id : string) (out : list CallStateChange) : nat :=
  length (filter (λ ch, State ch = st ∧ CallID ch = id) out).

(** A record for [id] came into being between [c] and [c']. *)
Definition opened (id : string) (c c' : Correlator) : bool :=
  bool_decide (calls c !! id = None ∧ is_Some (calls c' !! id)).

(** How often a record for [id] is opened while the events are processed. *)
Fixpoint openings (id : string) (c : Correlator) (evts : list (Event * time.Time)) : nat :=
  match evts with
  | [] => 0
  | (evt, now) :: evts' =>
      let c' := (Process c evt now).2 in
      ((if opened id c c' then 1 else 0) + openings id c' evts')%nat
  end.

(** What the record of [id], if there is one, may still emit of state [st]
    before it is removed. *)
Definition pending (st : CallState) (c : Correlator) (id : string) : nat :=
  match calls c !! id with
  | None => 0
  | Some cs =>
      match st with
      | StateRinging => if rung cs then 0 else 1
      | StateAnswered => if answered cs then 0 else 1
      | StateHungUp => 1
      end
  end%nat.

Lemma emitted_nil (st : CallState) (id : string) : emitted st id [] = 0%nat.
Proof. done. Qed.

Lemma emitted_app (st : CallState) (id : string) (o1 o2 : list CallStateChange) :
  emitted st id (o1 ++ o2) = (emitted st id o1 + emitted st id o2)%nat.
Proof. unfold emitted. by rewrite filter_app, length_app. Qed.

Lemma emitted_singleton (st : CallState) (id : string) (ch : CallStateChange) :
  emitted st id [ch] =
    if bool_decide (State ch = st ∧ CallID ch = id) then 1%nat else 0%nat.
Proof.
  unfold emitted. rewrite filter_cons, filter_nil.
  destruct (decide (State ch = st ∧ CallID ch = id)) as [H|H].
  - by rewrite (bool_decide_eq_true_2 _ H).
  - by rewrite (bool_decide_eq_false_2 _ H).
Qed.

Lemma pending_other (st : CallState) (c : Correlator) (id id' : string) (cs : callState) :
  id' ≠ id → pending st (store c id' cs) id = pending st c id.
Proof. intros Hne. unfold pending, store. simpl. by rewrite lookup_insert_ne. Qed.

Lemma opened_store_other (c : Correlator) (id id' : string) (cs : callState) :
  id' ≠ id → opened id c (store c id' cs) = false.
Proof.
  intros Hne. unfold opened, store. simpl. rewrite lookup_insert_ne by done.
  apply bool_decide_eq_false_2. intros [-> [? ?]]. done.
Qed.

Ltac settle_count :=
  repeat case_decision;
  repeat match goal with
    | |- context [if ?b then _ else _] => destruct b
    end;
  cbn [State CallID plain_change] in *;
  first [ lia | exfalso; intuition congruence ].

(** One record processed: what is emitted for [id] is paid for by what its
    record could still emit, or by the opening of a record. *)
Lemma Process_pays (st : CallState) (id : string) (c : Correlator) (evt : Event)
    (now : time.Time) :
  (emitted st id (Process c evt now).1 + pending st (Process c evt now).2 id
   <= (if opened id c (Process c evt now).2 then 1 else 0) + pending st c id)%nat.
Proof.
  destruct (Process_step c evt now) as
    [ | Hl | cs name Hl | cs Hl Hrung | cs ch Hl Hans -> | cs Hl | cs ch Hl Hleg -> ];
    rewrite ?emitted_nil, ?emitted_singleton;
    (destruct (decide (call_id evt = id)) as [<-|Hne];
     [| rewrite ?pending_other by done ]).
  - lia.
  - lia.
  - unfold opened, pending, store. cbn [calls].
    rewrite lookup_insert_eq, Hl.
    rewrite bool_decide_eq_true_2 by eauto. destruct st; cbn; lia.
  - lia.
  - unfold pending, store. cbn [calls]. rewrite lookup_insert_eq, Hl.
    destruct st; cbn; lia.
  - lia.
  - unfold pending, store. cbn [calls]. rewrite lookup_insert_eq, Hl.
    destruct st; cbn [set_rung rung answered]; rewrite ?Hrung; settle_count.
  - settle_count.
  - unfold pending, store. cbn [calls]. rewrite lookup_insert_eq, Hl.
    destruct st; cbn [set_answered rung answered]; rewrite ?Hans; settle_count.
  - settle_count.
  - unfold pending, store. cbn [calls]. rewrite lookup_insert_eq, Hl.
    destruct st; cbn; lia.
  - lia.
  - unfold pending. cbn [calls]. rewrite lookup_delete_eq, Hl.
    destruct st; settle_count.
  - unfold pending. cbn [calls]. rewrite lookup_delete_ne by done.
    settle_count.
Qed.

Lemma ProcessAll_cons (c : Correlator) (evt : Event) (now : time.Time)
    (evts : list (Event * time.Time)) :
  ProcessAll c ((evt, now) :: evts) =
    ((Process c evt now).1 ++ (ProcessAll (Process c evt now).2 evts).1,
     (ProcessAll (Process c evt now).2 evts).2).
Proof.
  change (ProcessAll c ((evt, now) :: evts))
    with (let '(out, c1) := Process c evt now in
          let '(outs, c2) := ProcessAll c1 evts in (out ++ outs, c2)).
  destruct (Process c evt now) as [out c1]. cbn [fst snd].
  by destruct (ProcessAll c1 evts).
Qed.

(** C4, as the code has it: over any run, from any correlator state, the
    changes of one state emitted for a call id number at most the records
    opened for that id during the run, plus one if a record is there at the
    start that has not emitted that change yet. So each record lifetime
    yields at most one Ringing, one Answered and one HungUp, and a call id
    that is used again after its record was removed may yield them again. *)
Theorem changes_per_record_lifetime (st : CallState) (id : string) (c : Correlator)
    (evts : list (Event * time.Time)) :
  (emitted st id (ProcessAll c evts).1 <= openings id c evts + pending st c id)%nat.
Proof.
  revert c. induction evts as [|[evt now] evts IH]; intros c.
  - simpl. rewrite emitted_nil. lia.
  - rewrite ProcessAll_cons. cbn [fst openings]. rewrite emitted_app.
    pose proof (Process_pays st id c evt now).
    pose proof (IH (Process c evt now).2). lia.
Qed.

(** *** Durations at finalization *)

Lemma Seconds_value (d : time.Duration) :
  (time.Seconds d == inject_Z d / inject_Z time.Second)%Q.
Proof.
  unfold time.Seconds. rewrite Qred_correct.
  rewrite (Z.quot_rem' d time.Second) at 3.
  rewrite inject_Z_plus, inject_Z_mult.
  field. by vm_compute.
Qed.

Lemma Seconds_mono (d1 d2 : time.Duration) :
  d1 <= d2 → (time.Seconds d1 <= time.Seconds d2)%Q.
Proof.
  intros Hle. rewrite !Seconds_value. unfold Qdiv.
  apply Qmult_le_compat_r; [by rewrite <- Zle_Qle|].
  by vm_compute.
Qed.

Lemma Seconds_nonneg (d : time.Duration) : 0 <= d → (0 <= time.Seconds d)%Q.
Proof. intros Hd. by apply (Seconds_mono 0 d). Qed.

Lemma Sub_nonneg (t u : time.Time) : u <= t → 0 <= time.Sub t u.
Proof.
  intros Hle. unfold time.Sub, time.minDuration, time.maxDuration.
  destruct (Z.ltb_spec (t - u) (- 2 ^ 63)); [lia|].
  destruct (Z.ltb_spec (2 ^ 63 - 1) (t - u)); lia.
Qed.

Lemma Sub_antitone (t u1 u2 : time.Time) :
  u1 <= u2 → time.Sub t u2 <= time.Sub t u1.
Proof.
  intros Hle. unfold time.Sub, time.minDuration, time.maxDuration.
  destruct (Z.ltb_spec (t - u2) (- 2 ^ 63)), (Z.ltb_spec (t - u1) (- 2 ^ 63));
    destruct (Z.ltb_spec (2 ^ 63 - 1) (t - u2)), (Z.ltb_spec (2 ^ 63 - 1) (t - u1));
    lia.
Qed.

(** The readings of the clock, one per event, never go back, starting from
    [T]. *)
Fixpoint clock_monotone (T : time.Time) (evts : list (Event * time.Time)) : Prop :=
  match evts with
  | [] => True
  | (_, now) :: evts' => T <= now ∧ clock_monotone now evts'
  end.

(** The changes emitted for [id] since its last HungUp, oldest first: what
    the current record of [id] has emitted. *)
Fixpoint lifetime_from (acc : list CallState) (id : string)
    (out : list CallStateChange) : list CallState :=
  match out with
  | [] => acc
  | ch :: out' =>
      if bool_decide (CallID ch = id) then
        match State ch with
        | StateHungUp => lifetime_from [] id out'
        | st => lifetime_from (acc ++ [st]) id out'
        end
      else lifetime_from acc id out'
  end.

Definition lifetime (id : string) (out : list CallStateChange) : list CallState :=
  lifetime_from [] id out.

Lemma lifetime_from_app (acc : list CallState) (id : string)
    (o1 o2 : list CallStateChange) :
  lifetime_from acc id (o1 ++ o2) = lifetime_from (lifetime_from acc id o1) id o2.
Proof.
  revert acc. induction o1 as [|ch o1 IH]; intros acc; [done|].
  cbn [app lifetime_from]. case_decision; [|done]. by destruct (State ch).
Qed.

Lemma lifetime_snoc (id : string) (out : list CallStateChange) (ch : CallStateChange) :
  lifetime id (out ++ [ch]) =
    if bool_decide (CallID ch = id) then
      match State ch with
      | StateHungUp => []
      | st => lifetime id out ++ [st]
      end
    else lifetime id out.
Proof.
  unfold lifetime. rewrite lifetime_from_app. cbn [lifetime_from].
  case_decision; [|done]. by destruct (State ch).
Qed.

Lemma lifetime_from_states (acc : list CallState) (id : string)
    (out : list CallStateChange) (st : CallState) :
  st ∈ lifetime_from acc id out →
  st ∈ acc ∨ ∃ ch, ch ∈ out ∧ CallID ch = id ∧ State ch = st.
Proof.
  revert acc. induction out as [|ch out IH]; intros acc; cbn [lifetime_from].
  - by left.
  - assert (∀ acc', st ∈ lifetime_from acc' id out →
              (st ∈ acc' → st ∈ acc ∨ ∃ ch', ch' ∈ ch :: out ∧ CallID ch' = id
                                               ∧ State ch' = st) →
              st ∈ acc ∨ ∃ ch', ch' ∈ ch :: out ∧ CallID ch' = id ∧ State ch' = st)
      as Hrec.
    { intros acc' [Hin|(ch' & Hin & Hid & Hst)]%IH Hacc; [by apply Hacc|].
      right. exists ch'. split; [by right|done]. }
    destruct (decide (CallID ch = id)) as [Hid|Hid].
    + rewrite (bool_decide_eq_true_2 _ Hid).
      destruct (State ch) eqn:Hst; intros Hin; apply (Hrec _ Hin).
      * intros [?| ->%list_elem_of_singleton]%elem_of_app; [by left|].
        right. exists ch. split; [by left|done].
      * intros [?| ->%list_elem_of_singleton]%elem_of_app; [by left|].
        right. exists ch. split; [by left|done].
      * by intros ?%elem_of_nil.
    + rewrite (bool_decide_eq_false_2 _ Hid). intros Hin.
      apply (Hrec _ Hin). by left.
Qed.

(** What the record of a call looks like, given what it has emitted so far
    and the last reading [T] of the clock. *)
Definition shape (L : list CallState) (cs : callState) (T : time.Time) : Prop :=
  match L with
  | [] => rung cs = false ∧ answered cs = false ∧ ringTime cs = 0
  | [StateRinging] =>
      rung cs = true ∧ answered cs = false ∧ 0 < ringTime cs ∧ ringTime cs <= T
  | [StateAnswered] =>
      rung cs = false ∧ answered cs = true ∧ ringTime cs = 0
      ∧ 0 < answerTime cs ∧ answerTime cs <= T
  | [StateRinging; StateAnswered] =>
      rung cs = true ∧ answered cs = true
      ∧ 0 < ringTime cs ∧ ringTime cs <= answerTime cs ∧ answerTime cs <= T
  | [StateAnswered; StateRinging] =>
      rung cs = true ∧ answered cs = true
      ∧ 0 < answerTime cs ∧ answerTime cs <= ringTime cs ∧ ringTime cs <= T
  | _ => False
  end.

(** The correlator agrees with the changes emitted so far. *)
Definition consistent (T : time.Time) (c : Correlator) (out : list CallStateChange) : Prop :=
  ∀ id, match calls c !! id with
        | None => lifetime id out = []
        | Some cs => shape (lifetime id out) cs T
        end.

(** The two duration properties of a HungUp change [h], [L] being what its
    record had emitted before. *)
Definition durations_sound (h : CallStateChange) (L : list CallState) : Prop :=
  (StateAnswered ∉ L → TalkDuration h = 0%Q)
  ∧ (head L ≠ Some StateAnswered → (TalkDuration h <= TotalDuration h)%Q).

Ltac shape_cases L :=
  destruct L as [|[] [|[] [|? ?]]]; cbn [shape app] in *.

Lemma shape_weaken (L : list CallState) (cs : callState) (T T' : time.Time) :
  T <= T' → shape L cs T → shape L cs T'.
Proof. intros HT. shape_cases L; intuition lia. Qed.

Lemma consistent_New (T : time.Time) : consistent T New [].
Proof. intros id. unfold New. cbn [calls]. by rewrite lookup_empty. Qed.

Lemma finalize_durations (cs : callState) (L : list CallState) (T now : time.Time)
    (h : CallStateChange) :
  T <= now → shape L cs T →
  TalkDuration h = talk_duration cs now →
  TotalDuration h = ring_duration cs now →
  durations_sound h L.
Proof.
  intros HT Hshape Htalk Htotal. unfold durations_sound.
  rewrite Htalk, Htotal. unfold talk_duration, ring_duration, time.IsZero.
  split.
  - intros Hnot.
    shape_cases L; try done; destruct Hshape as (_ & -> & _); try done;
      exfalso; apply Hnot; set_solver.
  - intros Hhead.
    shape_cases L; try done.
    + destruct Hshape as (_ & -> & ->). done.
    + destruct Hshape as (_ & -> & Hpos & Hle). cbn [andb].
      destruct (Z.eqb_spec (ringTime cs) 0); [lia|].
      apply Seconds_nonneg, Sub_nonneg. lia.
    + destruct Hshape as (_ & -> & Hpos & Hle & Hle'). cbn [andb].
      destruct (Z.eqb_spec (ringTime cs) 0); [lia|].
      destruct (Z.eqb_spec (answerTime cs) 0); [lia|]. cbn [negb].
      by apply Seconds_mono, Sub_antitone.
Qed.

Lemma step_consistent (T now : time.Time) (c c' : Correlator) (evt : Event)
    (out o : list CallStateChange) :
  0 < T → T <= now → consistent T c out → step c evt now o c' →
  consistent now c' (out ++ o)
  ∧ ∀ h, o = [h] → State h = StateHungUp →
         durations_sound h (lifetime (CallID h) out).
Proof.
  intros HT0 HT Hc Hstep.
  assert (∀ id, match calls c !! id with
                | None => lifetime id out = []
                | Some cs => shape (lifetime id out) cs now
                end) as Hc'.
  { intros id. specialize (Hc id). destruct (calls c !! id); [|done].
    by eapply shape_weaken. }
  destruct Hstep as
    [ | Hl | cs name Hl | cs Hl Hrung | cs ch Hl Hans -> | cs Hl | cs ch Hl Hleg -> ].
  - rewrite app_nil_r. split; [done|]. by intros h [=].
  - rewrite app_nil_r. split; [|by intros h [=]].
    intros id. unfold store. cbn [calls].
    destruct (decide (call_id evt = id)) as [<-|Hne].
    + rewrite lookup_insert_eq. specialize (Hc' (call_id evt)).
      rewrite Hl in Hc'. by rewrite Hc'.
    + rewrite lookup_insert_ne by done. apply Hc'.
  - rewrite app_nil_r. split; [|by intros h [=]].
    intros id. unfold store. cbn [calls].
    destruct (decide (call_id evt = id)) as [<-|Hne].
    + rewrite lookup_insert_eq. specialize (Hc' (call_id evt)).
      rewrite Hl in Hc'. revert Hc'.
      shape_cases (lifetime (call_id evt) out); done.
    + rewrite lookup_insert_ne by done. apply Hc'.
  - split; [|by intros h [= <-]].
    intros id. unfold store. cbn [calls]. rewrite lifetime_snoc.
    cbn [plain_change CallID State].
    destruct (decide (call_id evt = id)) as [<-|Hne].
    + rewrite lookup_insert_eq, bool_decide_eq_true_2 by done.
      specialize (Hc' (call_id evt)). rewrite Hl in Hc'. revert Hc'.
      shape_cases (lifetime (call_id evt) out);
        cbn [set_rung rung answered ringTime answerTime]; intuition (congruence || lia).
    + rewrite lookup_insert_ne, bool_decide_eq_false_2 by done. apply Hc'.
  - split; [|by intros h [= <-]].
    intros id. unfold store. cbn [calls]. rewrite lifetime_snoc.
    cbn [CallID State].
    destruct (decide (call_id evt = id)) as [<-|Hne].
    + rewrite lookup_insert_eq, bool_decide_eq_true_2 by done.
      specialize (Hc' (call_id evt)). rewrite Hl in Hc'. revert Hc'.
      shape_cases (lifetime (call_id evt) out);
        cbn [set_answered rung answered ringTime answerTime];
        intuition (congruence || lia).
    + rewrite lookup_insert_ne, bool_decide_eq_false_2 by done. apply Hc'.
  - rewrite app_nil_r. split; [|by intros h [=]].
    intros id. unfold store. cbn [calls].
    destruct (decide (call_id evt = id)) as [<-|Hne].
    + rewrite lookup_insert_eq. specialize (Hc' (call_id evt)).
      rewrite Hl in Hc'. revert Hc'.
      shape_cases (lifetime (call_id evt) out); done.
    + rewrite lookup_insert_ne by done. apply Hc'.
  - split.
    + intros id. cbn [calls]. rewrite lifetime_snoc. cbn [CallID State].
      destruct (decide (call_id evt = id)) as [<-|Hne].
      * by rewrite lookup_delete_eq, bool_decide_eq_true_2.
      * rewrite lookup_delete_ne, bool_decide_eq_false_2 by done. apply Hc'.
    + intros h [= <-] _. cbn [CallID].
      specialize (Hc (call_id evt)). rewrite Hl in Hc.
      by eapply (finalize_durations cs _ T now).
Qed.

(** The run, started in a state that agrees with the changes [out0] emitted
    before it. *)
Lemma ProcessAll_durations (evts : list (Event * time.Time)) (T : time.Time)
    (c : Correlator) (out0 pre post : list CallStateChange) (h : CallStateChange) :
  0 < T → clock_monotone T evts → consistent T c out0 →
  (ProcessAll c evts).1 = pre ++ h :: post →
  State h = StateHungUp →
  durations_sound h (lifetime (CallID h) (out0 ++ pre)).
Proof.
  revert T c out0 pre. induction evts as [|[evt now] evts IH];
    intros T c out0 pre HT0 Hmono Hc Hout Hst.
  { by destruct pre. }
  destruct Hmono as [HT Hmono]. rewrite ProcessAll_cons in Hout. cbn [fst] in Hout.
  destruct (step_consistent T now c _ evt out0 _ HT0 HT Hc (Process_step c evt now))
    as [Hc1 Hnew].
  pose proof (step_length _ _ _ _ _ (Process_step c evt now)) as Hlen.
  destruct (Process c evt now) as [o c1]. cbn [fst snd] in *.
  assert (0 < now) as Hnow by lia.
  destruct o as [|ch [|? ?]]; [| |simpl in Hlen; lia].
  - rewrite app_nil_r in Hc1. cbn [app] in Hout.
    by apply (IH now c1 out0 pre).
  - cbn [app] in Hout. destruct pre as [|ch' pre].
    + injection Hout as <- _. rewrite app_nil_r. by apply Hnew.
    + injection Hout as <- Hout.
      replace (out0 ++ ch :: pre) with ((out0 ++ [ch]) ++ pre)
        by (by rewrite <- app_assoc).
      by apply (IH now c1 (out0 ++ [ch]) pre).
Qed.

Lemma lifetime_states (id : string) (out : list CallStateChange) (st : CallState) :
  st ∈ lifetime id out → ∃ ch, ch ∈ out ∧ CallID ch = id ∧ State ch = st.
Proof.
  intros [Hin|Hex]%lifetime_from_states; [|done]. by apply elem_of_nil in Hin.
Qed.

(** C3, as the code has it. A fresh correlator is run under a clock that
    never goes back and starts after the zero instant. For every HungUp
    change it emits: talk_duration is 0 if the record of the call has
    emitted no Answered change (so also if no Answered change was ever
    emitted for the call id); and total_duration is at least talk_duration
    provided the first change the record emitted is not Answered, that is,
    the call was not answered before a ringing notification was seen. *)
Theorem hangup_durations (T0 : time.Time) (evts : list (Event * time.Time))
    (pre post : list CallStateChange) (h : CallStateChange) :
  0 < T0 → clock_monotone T0 evts →
  (ProcessAll New evts).1 = pre ++ h :: post →
  State h = StateHungUp →
  let L := lifetime (CallID h) pre in
  (StateAnswered ∉ L → TalkDuration h = 0%Q)
  ∧ ((∀ ch, ch ∈ pre → CallID ch = CallID h → State ch ≠ StateAnswered) →
     TalkDuration h = 0%Q)
  ∧ (head L ≠ Some StateAnswered → (TalkDuration h <= TotalDuration h)%Q).
Proof.
  intros HT0 Hmono Hout Hst L.
  destruct (ProcessAll_durations evts T0 New [] pre post h HT0 Hmono
              (consistent_New T0) Hout Hst) as [Htalk Htotal].
  cbn [app] in *. fold L in Htalk, Htotal.
  split; [done|]. split; [|done].
  intros Hnone. apply Htalk.
  intros (ch & Hin & Hid & Hstate)%lifetime_states. by eapply Hnone.
Qed.

(** *** Concrete runs *)

(** 2026-01-01 12:00:00 UTC, the start of the clock in the tests. *)
Definition t_2026 : time.Time := 63902865600 * time.Second.

Definition ev_Newchannel (id num name ext : string) : Event :=
  NewEvent ["Event"; "Newchannel"; "CallerIDNum"; num; "CallerIDName"; name;
            "Exten"; ext; "Uniqueid"; id; "Linkedid"; id].

Definition ev_Newstate (id leg desc : string) : Event :=
  NewEvent ["Event"; "Newstate"; "ChannelStateDesc"; desc;
            "Uniqueid"; leg; "Linkedid"; id].

Definition ev_DialEnd (id leg status : string) : Event :=
  NewEvent ["Event"; "DialEnd"; "DialStatus"; status;
            "Uniqueid"; leg; "Linkedid"; id].

Definition ev_Hangup (id leg cause : string) : Event :=
  NewEvent ["Event"; "Hangup"; "Cause"; cause; "Uniqueid"; leg; "Linkedid"; id].

(** The run of TestDeterministicDurations. *)
Definition run_answered : list (Event * time.Time) :=
  [ (ev_Newchannel "test.1" "1986" "Martin" "21", t_2026);
    (ev_Newstate "test.1" "test.2" "Ringing", t_2026);
    (ev_Newstate "test.1" "test.2" "Up", time.Add t_2026 (5 * time.Second));
    (ev_Hangup "test.1" "test.1" "16", time.Add t_2026 (35 * time.Second)) ].

(** A call answered with no ringing notification seen. *)
Definition run_answered_unrung : list (Event * time.Time) :=
  [ (ev_Newchannel "test.1" "1986" "Martin" "21", t_2026);
    (ev_Newstate "test.1" "test.2" "Up", time.Add t_2026 (10 * time.Second));
    (ev_Hangup "test.1" "test.1" "16", time.Add t_2026 (40 * time.Second)) ].

(** A call id used for two calls, one after the other (as in
    TestHangupCleansUpState, both calls ringing and answered). *)
Definition run_reused_id : list (Event * time.Time) :=
  [ (ev_Newchannel "call.1" "1986" "" "21", t_2026);
    (ev_Newstate "call.1" "call.2" "Ringing", t_2026);
    (ev_Newstate "call.1" "call.2" "Up", t_2026);
    (ev_Hangup "call.1" "call.1" "16", t_2026);
    (ev_Newchannel "call.1" "21" "" "1986", t_2026);
    (ev_Newstate "call.1" "call.2" "Ringing", t_2026);
    (ev_Newstate "call.1" "call.2" "Up", t_2026);
    (ev_Hangup "call.1" "call.1" "16", t_2026) ].

(** A cancelled call, still ringing, about to be terminated. *)
Definition c_cancelled : Correlator :=
  (ProcessAll New
     [ (ev_Newchannel "test.1" "1986" "Martin" "21", t_2026);
       (ev_Newstate "test.1" "test.2" "Ringing", t_2026);
       (ev_DialEnd "test.1" "test.1" "CANCEL", t_2026) ]).2.

Definition cs_cancelled : callState :=
  {| linkedID := "test.1";
     from := {| Extension := "1986"; Name := "Martin" |};
     to := {| Extension := "21"; Name := "" |};
     ringTime := t_2026; answerTime := 0;
     answered := false; rung := true; cancelled := true |}.

Lemma scenario_A_witness :
  (ProcessAll New run_answered).1
  = [ {| State := StateRinging; CallID := "test.1";
         From := {| Extension := "1986"; Name := "Martin" |};
         To := {| Extension := "21"; Name := "" |};
         Timestamp := t_2026;
         RingDuration := 0; Cause := ""; CauseDescription := "";
         CauseCode := 0; TalkDuration := 0; TotalDuration := 0 |};
      {| State := StateAnswered; CallID := "test.1";
         From := {| Extension := "1986"; Name := "Martin" |};
         To := {| Extension := "21"; Name := "" |};
         Timestamp := time.Add t_2026 (5 * time.Second);
         RingDuration := 5; Cause := ""; CauseDescription := "";
         CauseCode := 0; TalkDuration := 0; TotalDuration := 0 |};
      {| State := StateHungUp; CallID := "test.1";
         From := {| Extension := "1986"; Name := "Martin" |};
         To := {| Extension := "21"; Name := "" |};
         Timestamp := time.Add t_2026 (35 * time.Second);
         RingDuration := 0; Cause := "normal_clearing";
         CauseDescription := "The call was hung up normally by one of the parties";
         CauseCode := 16; TalkDuration := 30; TotalDuration := 35 |} ].
Proof.
  apply (scenario_A "test.1" t_2026).
  - reflexivity.
  - vm_compute. repeat split; reflexivity.
  - vm_compute. repeat split; reflexivity.
  - vm_compute. repeat split; reflexivity.
  - vm_compute. repeat split; reflexivity.
Defined.

Lemma cause_resolution_witness :
  ∃ ch, (Process c_cancelled (ev_Hangup "test.1" "test.1" "16")
           (time.Add t_2026 (10 * time.Second))).1 = [ch]
    ∧ State ch = StateHungUp
    ∧ CauseCode ch = 16
    ∧ Cause ch = "cancelled"
    ∧ CauseDescription ch = cancelled_description.
Proof.
  destruct (cause_resolution c_cancelled (ev_Hangup "test.1" "test.1" "16")
              (time.Add t_2026 (10 * time.Second)) cs_cancelled)
    as (ch & Hout & Hst & Hcode & Hname & _).
  - vm_compute. reflexivity.
  - vm_compute. reflexivity.
  - exists ch. split; [exact Hout|]. split; [exact Hst|].
    split; [exact Hcode|]. exact Hname.
Defined.

Lemma secondary_leg_termination_ignored_witness :
  let evt := ev_Hangup "test.1" "test.2" "16" in
  (Process c_cancelled evt t_2026).1 = []
  ∧ calls (Process c_cancelled evt t_2026).2 !! "test.1" = Some cs_cancelled
  ∧ (Process c_cancelled evt t_2026).2 = c_cancelled.
Proof.
  apply (secondary_leg_termination_ignored c_cancelled
           (ev_Hangup "test.1" "test.2" "16") t_2026 cs_cancelled).
  - vm_compute. reflexivity.
  - vm_compute. discriminate.
  - vm_compute. reflexivity.
Defined.

Lemma line_without_separator_witness :
  let hs := [{| Key := "Event"; Value := "Test" |}] in
  let raw := String "j" (String "u" (String "n" (String "k" (String "013" "")))) in
  let r := [""; "Event: Final"] in
  (@nil header = [] →
     Next_loop [] (NewParser bufio.final_token (raw :: r))
     = Next_loop [] (NewParser bufio.final_token r)
     ∧ ParseAll (NewParser bufio.final_token (raw :: r))
       = ParseAll (NewParser bufio.final_token r))
  ∧ (hs ≠ [] →
     Next_loop hs (NewParser bufio.final_token (raw :: r))
     = Next_loop (hs ++ [{| Key := ""; Value := "junk" |}])
         (NewParser bufio.final_token r)
     ∧ ∃ evt p',
         Next_loop hs (NewParser bufio.final_token (raw :: r)) = (Some evt, p')
         ∧ (hs ++ [{| Key := ""; Value := "junk" |}]) `prefix_of` headers evt).
Proof.
  intros hs raw r. split.
  - apply (line_without_separator bufio.final_token [] raw r).
    + vm_compute. reflexivity.
    + vm_compute. discriminate.
    + vm_compute. reflexivity.
  - apply (line_without_separator bufio.final_token hs raw r).
    + vm_compute. reflexivity.
    + vm_compute. discriminate.
    + vm_compute. reflexivity.
Defined.

Lemma hangup_durations_witness :
  let h := {| State := StateHungUp; CallID := "test.1";
              From := {| Extension := "1986"; Name := "Martin" |};
              To := {| Extension := "21"; Name := "" |};
              Timestamp := time.Add t_2026 (35 * time.Second);
              RingDuration := 0; Cause := "normal_clearing";
              CauseDescription := "The call was hung up normally by one of the parties";
              CauseCode := 16; TalkDuration := 30; TotalDuration := 35 |} in
  (TalkDuration h <= TotalDuration h)%Q.
Proof.
  intros h.
  refine (proj2 (proj2 (hangup_durations t_2026 run_answered
            (take 2 (ProcessAll New run_answered).1) [] h _ _ _ _)) _).
  - reflexivity.
  - vm_compute. repeat split; discriminate.
  - vm_compute. reflexivity.
  - reflexivity.
  - vm_compute. discriminate.
Defined.

(** C3 as stated fails: a call answered with no ringing notification seen,
    under a clock that never goes back; its HungUp change has talk_duration
    30 and total_duration 0. *)
Lemma answered_unrung_total_below_talk :
  clock_monotone t_2026 run_answered_unrung
  ∧ ∃ h, (ProcessAll New run_answered_unrung).1 !! 1%nat = Some h
       ∧ State h = StateHungUp
       ∧ TalkDuration h = 30%Q ∧ TotalDuration h = 0%Q
       ∧ ¬ (TalkDuration h <= TotalDuration h)%Q.
Proof.
  split.
  - vm_compute. repeat split; discriminate.
  - eexists. split; [vm_compute; reflexivity|].
    cbn [State TalkDuration TotalDuration].
    repeat split. vm_compute. intros H. apply H. reflexivity.
Qed.

(** C4 as stated fails: a call id used again after its record was removed
    yields a second Ringing, a second Answered and a second HungUp. *)
Lemma reused_id_emits_twice :
  let out := (ProcessAll New run_reused_id).1 in
  emitted StateRinging "call.1" out = 2%nat
  ∧ emitted StateAnswered "call.1" out = 2%nat
  ∧ emitted StateHungUp "call.1" out = 2%nat
  ∧ ¬ (emitted StateHungUp "call.1" out <= 1)%nat.
Proof.
  vm_compute. repeat split. intros H. inversion H as [|? H1]. inversion H1.
Qed.


(** A line of [bufio.MaxScanTokenSize] bytes, none of them part of a
    separator or a carriage return. *)
Definition long_line : string := Nat.iter 16 (λ s, s +:+ s) "x".

(** C6 as stated fails at a line the scanner does not deliver. With a pair
    captured, the record is delivered without the line; with no pair
    captured, the line takes the rest of the input with it, here a record
    of its own, whether the scanner then stops for good or hands out its
    buffer once more (see also [Next_loop_long]). *)
Lemma long_line_without_separator :
  let hs := [{| Key := "Event"; Value := "Hangup" |}] in
  let r := [""; "Cause: 16"] in
  let line := strings.TrimRight_CR long_line in
  Z.of_nat (String.length long_line) = bufio.MaxScanTokenSize
  ∧ line ≠ ""
  ∧ strings.Index line ": " < 0
  ∧ (Next_loop hs (NewParser bufio.final_token (long_line :: r))).1
    = Some {| headers := hs |}
  ∧ ¬ (hs ++ [{| Key := ""; Value := line |}]) `prefix_of` hs
  ∧ ParseAll (NewParser bufio.final_token ("Event: Hangup" :: long_line :: r))
    = [NewEvent ["Event"; "Hangup"]]
  ∧ ParseAll (NewParser bufio.stopped ("Event: Hangup" :: long_line :: r))
    = [NewEvent ["Event"; "Hangup"]]
  ∧ ParseAll (NewParser bufio.final_token (long_line :: r)) = []
  ∧ ParseAll (NewParser bufio.final_token r) = [NewEvent ["Cause"; "16"]]
  ∧ ParseAll (NewParser bufio.final_token (long_line :: r))
    ≠ ParseAll (NewParser bufio.final_token r).
Proof.
  intros hs r line.
  assert (ParseAll (NewParser bufio.final_token (long_line :: r)) = []) as Hlost
    by (vm_compute; reflexivity).
  assert (ParseAll (NewParser bufio.final_token r) = [NewEvent ["Cause"; "16"]]) as Hrest
    by (vm_compute; reflexivity).
  split; [vm_compute; reflexivity|].
  split.
  { intros Hblank.
    assert (strings.HasPrefix line "x" = true) as Hx by (vm_compute; reflexivity).
    rewrite Hblank in Hx. discriminate. }
  split; [vm_compute; reflexivity|].
  split; [vm_compute; reflexivity|].
  split.
  { intros [k Hk]. apply (f_equal length) in Hk.
    rewrite !length_app in Hk. cbn [length] in Hk. lia. }
  split; [vm_compute; reflexivity|].
  split; [vm_compute; reflexivity|].
  split; [exact Hlost|]. split; [exact Hrest|].
  rewrite Hlost, Hrest. discriminate.
Qed.

(** ** Further properties of the accessors and the reader *)

Lemma Get_headers_first (pre post : list header) (h : header) (key : string) :
  Key h = key → (∀ h', h' ∈ pre → Key h' ≠ key) →
  Get_headers (pre ++ h :: post) key = Value h.
Proof.
  intros Hk Hpre. induction pre as [|h0 pre IH]; cbn [app Get_headers].
  - by rewrite (bool_decide_eq_true_2 _ Hk).
  - rewrite bool_decide_eq_false_2 by (apply Hpre; by left).
    apply IH. intros h' Hin. apply Hpre. by right.
Qed.

Lemma Get_headers_missing (hs : list header) (key : string) :
  (∀ h, h ∈ hs → Key h ≠ key) → Get_headers hs key = "".
Proof.
  intros Hhs. induction hs as [|h hs IH]; cbn [Get_headers]; [done|].
  rewrite bool_decide_eq_false_2 by (apply Hhs; by left).
  apply IH. intros h' Hin. apply Hhs. by right.
Qed.

(** [Get] answers with the value of the first pair that has the key,
    whatever comes after it (keys may repeat), and with the empty string when
    no pair has the key. *)
Theorem Get_first_match (evt : Event) (key : string) :
  (∀ pre h post, headers evt = pre ++ h :: post → Key h = key →
     (∀ h', h' ∈ pre → Key h' ≠ key) → Get evt key = Value h)
  ∧ ((∀ h, h ∈ headers evt → Key h ≠ key) → Get evt key = "").
Proof.
  unfold Get. split.
  - intros pre h post -> Hk Hpre. by apply Get_headers_first.
  - apply Get_headers_missing.
Qed.

Lemma NewEvent_headers_odd (kvs : list string) (k : string) :
  Nat.Even (length kvs) → NewEvent_headers (kvs ++ [k]) = NewEvent_headers kvs.
Proof.
  revert kvs. fix IH 1. intros [|k0 [|v0 kvs]] Hev.
  - done.
  - destruct Hev as [n Hn]. simpl in Hn. lia.
  - cbn [app NewEvent_headers]. f_equal. apply IH.
    destruct Hev as [n Hn]. exists (n - 1)%nat. simpl in Hn. lia.
Qed.

(** [NewEvent] pairs its arguments up in order: the first key reads back its
    value, any other key is looked up in the rest, and a last key that has no
    value is dropped. *)
Theorem NewEvent_pairs (k v : string) (kvs : list string) :
  Get (NewEvent (k :: v :: kvs)) k = v
  ∧ (∀ k', k' ≠ k → Get (NewEvent (k :: v :: kvs)) k' = Get (NewEvent kvs) k')
  ∧ (∀ k', Nat.Even (length kvs) → NewEvent (kvs ++ [k']) = NewEvent kvs).
Proof.
  unfold Get, NewEvent. cbn [headers NewEvent_headers Get_headers Key Value].
  split; [by rewrite bool_decide_eq_true_2|]. split.
  - intros k' Hne. by rewrite bool_decide_eq_false_2.
  - intros k' Hev. f_equal. by apply NewEvent_headers_odd.
Qed.

Lemma Get_first_match_witness :
  let evt := NewEvent ["Event"; "Hangup"; "Cause"; "16"; "Cause"; "17"] in
  Get evt "Cause" = "16" ∧ Get evt "Uniqueid" = "".
Proof.
  intros evt. destruct (Get_first_match evt "Cause") as [Hfirst _].
  destruct (Get_first_match evt "Uniqueid") as [_ Hmiss].
  split.
  - apply (Hfirst [{| Key := "Event"; Value := "Hangup" |}]
                  {| Key := "Cause"; Value := "16" |}
                  [{| Key := "Cause"; Value := "17" |}]).
    + reflexivity.
    + reflexivity.
    + intros h' ->%list_elem_of_singleton. vm_compute. discriminate.
  - apply Hmiss. intros h Hin. vm_compute in Hin.
    repeat (apply elem_of_cons in Hin as [->|Hin]; [vm_compute; discriminate|]).
    by apply elem_of_nil in Hin.
Defined.

Lemma NewEvent_pairs_witness :
  Get (NewEvent ["Event"; "Hangup"; "Cause"; "16"]) "Event" = "Hangup"
  ∧ Get (NewEvent ["Event"; "Hangup"; "Cause"; "16"]) "Cause"
    = Get (NewEvent ["Cause"; "16"]) "Cause"
  ∧ NewEvent (["Cause"; "16"] ++ ["Dangling"]) = NewEvent ["Cause"; "16"].
Proof.
  destruct (NewEvent_pairs "Event" "Hangup" ["Cause"; "16"]) as (H1 & H2 & H3).
  split; [exact H1|]. split.
  - apply H2. vm_compute. discriminate.
  - apply H3. exists 1%nat. reflexivity.
Defined.

(** *** The value [GetInt] returns fits an int *)

Lemma Atoi_digits_bound (s : string) (n m : Z) :
  0 <= n → strconv.Atoi_digits s n = Some m →
  0 <= m < (n + 1) * 10 ^ Z.of_nat (String.length s).
Proof.
  revert n. induction s as [|c s IH]; intros n Hn; cbn [strconv.Atoi_digits String.length].
  - intros [= <-]. simpl. lia.
  - set (ch := (strconv.byte_of c - 48) mod 256).
    destruct (Z.ltb_spec 9 ch) as [|Hch]; [done|].
    assert (0 <= ch) by (apply Z.mod_pos_bound; lia).
    intros Hm. apply IH in Hm; [|lia].
    rewrite Nat2Z.inj_succ, Z.pow_succ_r by lia. nia.
Qed.

Lemma ParseUint_loop_bound (s : string) (n : Z) :
  0 <= n <= strconv.maxUint64 →
  0 <= (strconv.ParseUint_loop s n).1 <= strconv.maxUint64.
Proof.
  revert n. induction s as [|c s IH]; intros n Hn; cbn [strconv.ParseUint_loop].
  - done.
  - unfold strconv.maxUint64 in *.
    destruct ((48 <=? strconv.byte_of c) && (strconv.byte_of c <=? 57));
      [|simpl; lia].
    destruct (Z.leb_spec ((2 ^ 64 - 1) / 10 + 1) n); [simpl; lia|].
    set (n1 := (n * 10 + (strconv.byte_of c - 48)) mod 2 ^ 64).
    assert (0 <= n1 < 2 ^ 64) by (apply Z.mod_pos_bound; lia).
    destruct ((n1 <? n * 10) || (2 ^ 64 - 1 <? n1)); [simpl; lia|].
    apply IH. lia.
Qed.

Lemma ParseInt_bound (s : string) :
  - 2 ^ 63 <= (strconv.ParseInt s).1 <= 2 ^ 63 - 1.
Proof.
  unfold strconv.ParseInt. destruct s as [|c0 rest]; [simpl; lia|].
  set (neg := bool_decide (c0 = "-"%char)).
  set (s1 := if bool_decide (c0 = "+"%char) || neg then rest else String c0 rest).
  assert (0 <= (strconv.ParseUint s1).1 <= strconv.maxUint64) as Hun.
  { unfold strconv.ParseUint. destruct s1; [simpl; unfold strconv.maxUint64; lia|].
    apply ParseUint_loop_bound. unfold strconv.maxUint64. lia. }
  destruct (strconv.ParseUint s1) as [un [[]|]]; cbn [fst] in *;
    try (simpl; lia); unfold strconv.intSize;
    change (2 ^ (64 - 1)) with (2 ^ 63);
    destruct neg; cbn [negb andb];
    destruct (Z.leb_spec (2 ^ 63) un); destruct (Z.ltb_spec (2 ^ 63) un);
    cbn [fst]; lia.
Qed.

(** Whatever the record and the key, the number [GetInt] returns is within
    the range of a 64-bit int. *)
Theorem GetInt_in_int_range (evt : Event) (key : string) :
  - 2 ^ 63 <= GetInt evt key <= 2 ^ 63 - 1.
Proof.
  unfold GetInt, strconv.Atoi. generalize (Get evt key). intros s.
  destruct (Z.ltb_spec 0 (Z.of_nat (String.length s))) as [Hpos|];
    [|apply ParseInt_bound].
  destruct (Z.ltb_spec (Z.of_nat (String.length s)) 19) as [Hlen|];
    [|apply ParseInt_bound].
  cbn [andb]. destruct s as [|c0 rest]; [simpl; lia|].
  set (signed := bool_decide (c0 = "-"%char) || bool_decide (c0 = "+"%char)).
  set (s1 := if signed then rest else String c0 rest).
  destruct (signed && bool_decide (rest = EmptyString)); [simpl; lia|].
  destruct (strconv.Atoi_digits s1 0) as [m|] eqn:Hd; [|simpl; lia].
  apply Atoi_digits_bound in Hd; [|lia].
  assert (Z.of_nat (String.length s1) <= 18) as Hlen1.
  { subst s1. destruct signed; cbn [String.length] in *; lia. }
  assert (10 ^ Z.of_nat (String.length s1) <= 10 ^ 18)
    by (apply Z.pow_le_mono_r; lia).
  destruct (bool_decide (c0 = "-"%char)); cbn [fst]; lia.
Qed.

(** *** The reader: delivered records *)

Lemma Next_loop_nonempty (p : Parser) (hs : list header) (evt : Event) (p' : Parser) :
  Next_loop hs p = (Some evt, p') → headers evt ≠ [].
Proof.
  revert hs. induction p as [|[text|] p IH]; intros hs; cbn [Next_loop].
  - destruct hs; [done|]. by intros [= <- _].
  - case_decision.
    + destruct hs; [apply IH|]. by intros [= <- _].
    + destruct (strings.Index _ _ <? 0); [|apply IH].
      destruct hs; apply IH.
  - destruct hs; [done|]. by intros [= <- _].
Qed.

Lemma ParseAll_fuel_nonempty (n : nat) (p : Parser) :
  Forall (λ evt, headers evt ≠ []) (ParseAll_fuel n p).
Proof.
  revert p. induction n as [|n IH]; intros p; cbn [ParseAll_fuel]; [done|].
  destruct (Next p) as [[evt|] p'] eqn:Hnext; [|done].
  constructor; [|apply IH]. by eapply Next_loop_nonempty.
Qed.

(** No record the reader delivers is empty: blank lines and lines before the
    first pair never make a record of their own. *)
Theorem ParseAll_records_nonempty (p : Parser) :
  Forall (λ evt, headers evt ≠ []) (ParseAll p).
Proof. apply ParseAll_fuel_nonempty. Qed.

(** At a line of [bufio.MaxScanTokenSize] bytes or more the scanner fails,
    whatever follows the line. *)
Lemma NewParser_long (after : string → Parser) (raw : string) (r : list string) :
  ¬ Z.of_nat (String.length raw) < bufio.MaxScanTokenSize →
  NewParser after (raw :: r) = None :: after raw.
Proof.
  intros Hlen. unfold NewParser. cbn [bufio.NewScanner].
  apply Z.ltb_nlt in Hlen. by rewrite Hlen.
Qed.

(** At such a line [Next] ends: it delivers the record in progress, if
    there is one, without the line, and the lines behind are never read. *)
Lemma Next_loop_long (after : string → Parser) (hs : list header)
    (raw : string) (r : list string) :
  ¬ Z.of_nat (String.length raw) < bufio.MaxScanTokenSize →
  Next_loop hs (NewParser after (raw :: r))
  = (match hs with [] => None | _ => Some {| headers := hs |} end, after raw).
Proof.
  intros Hlen. rewrite (NewParser_long after raw r Hlen). by destruct hs.
Qed.

Lemma Next_loop_no_separator (after : string → Parser) (r : list string) :
  Forall (λ raw, strings.Index (strings.TrimRight_CR raw) ": " < 0) r →
  (Next_loop [] (NewParser after r)).1 = None.
Proof.
  induction 1 as [|raw r Hraw _ IH]; [done|].
  destruct (decide (Z.of_nat (String.length raw) < bufio.MaxScanTokenSize))
    as [Hlen|Hlen].
  - rewrite (NewParser_short after raw r Hlen), Next_loop_line. cbv zeta.
    case_decision; [done|].
    apply Z.ltb_lt in Hraw. by rewrite Hraw.
  - by rewrite (NewParser_long after raw r Hlen).
Qed.

(** An input in which no line has the separator (no line at all, a banner,
    blank lines; lines of any length) yields no record at all. *)
Theorem ParseAll_no_separator (after : string → Parser) (r : list string) :
  Forall (λ raw, strings.Index (strings.TrimRight_CR raw) ": " < 0) r →
  ParseAll (NewParser after r) = [].
Proof.
  intros Hr. rewrite ParseAll_unfold. unfold Next.
  apply (Next_loop_no_separator after) in Hr.
  destruct (Next_loop [] (NewParser after r)) as [[evt|] q]; done.
Qed.

Lemma ParseAll_no_separator_witness :
  ParseAll (NewParser bufio.final_token
              [String "A" (String "M" (String "I" (String "013" ""))); ""])
  = [].
Proof.
  apply (ParseAll_no_separator bufio.final_token).
  repeat constructor; vm_compute; reflexivity.
Defined.

Lemma Next_loop_trailing_blank (p : Parser) (hs : list header) :
  (Next_loop hs (p ++ [Some ""])).1 = (Next_loop hs p).1
  ∧ ((Next_loop hs (p ++ [Some ""])).2 = (Next_loop hs p).2 ++ [Some ""]
     ∨ (Next_loop hs (p ++ [Some ""])).2 = [] ∧ (Next_loop hs p).2 = []).
Proof.
  revert hs. induction p as [|[text|] p IH]; intros hs.
  - cbn. destruct hs; split; auto.
  - cbn [app Next_loop]. case_decision.
    + destruct hs; [apply IH|]. split; [done|]. by left.
    + destruct (strings.Index _ _ <? 0); [|apply IH].
      destruct hs; apply IH.
  - cbn [app Next_loop]. destruct hs; (split; [done|]); by left.
Qed.

Lemma ParseAll_fuel_trailing_blank (n : nat) (p : Parser) :
  (length p < n)%nat →
  ParseAll_fuel (S n) (p ++ [Some ""]) = ParseAll_fuel n p.
Proof.
  revert p. induction n as [|n IH]; intros p Hn; [lia|].
  change (ParseAll_fuel (S (S n)) (p ++ [Some ""]))
    with (match Next (p ++ [Some ""]) with
          | (Some evt, p') => evt :: ParseAll_fuel (S n) p'
          | (None, _) => []
          end).
  cbn [ParseAll_fuel]. unfold Next.
  destruct (Next_loop_trailing_blank p []) as [Hevt Hrest].
  destruct (Next_loop [] (p ++ [Some ""])) as [r1 q1].
  destruct (Next_loop [] p) as [r2 q2] eqn:Hnext. cbn [fst snd] in *. subst r2.
  destruct r1 as [evt|]; [|done].
  apply Next_loop_consumes in Hnext as [_ Hlt]. specialize (Hlt eq_refl).
  f_equal. destruct Hrest as [-> | [-> ->]].
  - apply IH. lia.
  - clear. destruct n; done.
Qed.

Lemma ParseAll_blank_answer (p : Parser) :
  ParseAll (p ++ [Some ""]) = ParseAll p.
Proof.
  unfold ParseAll. rewrite length_app. cbn [length].
  replace (S (length p + 1)) with (S (S (length p))) by lia.
  apply ParseAll_fuel_trailing_blank. lia.
Qed.

(** A line at the end of the input is one more answer of the scanner, or is
    never reached. *)
Lemma NewParser_snoc (after : string → Parser) (r : list string) (raw : string) :
  Z.of_nat (String.length raw) < bufio.MaxScanTokenSize →
  NewParser after (r ++ [raw]) = NewParser after r ++ [Some (bufio.dropCR raw)]
  ∨ NewParser after (r ++ [raw]) = NewParser after r.
Proof.
  intros Hraw. induction r as [|raw' r IH].
  - left. cbn [app]. by rewrite (NewParser_short after raw [] Hraw).
  - cbn [app].
    destruct (decide (Z.of_nat (String.length raw') < bufio.MaxScanTokenSize))
      as [Hlen|Hlen].
    + rewrite !(NewParser_short after raw' _ Hlen).
      destruct IH as [-> | ->]; [by left|by right].
    + right. by rewrite !(NewParser_long after raw' _ Hlen).
Qed.

(** The blank line after the last record is optional: the input with and
    without it yields the same records, also when the scanner fails at one
    of its lines. *)
Theorem ParseAll_trailing_blank (after : string → Parser) (r : list string) :
  ParseAll (NewParser after (r ++ [""])) = ParseAll (NewParser after r).
Proof.
  destruct (NewParser_snoc after r "") as [-> | ->]; [done| |done].
  apply ParseAll_blank_answer.
Qed.

(** *** The reader: carriage returns *)

Lemma TrimRight_CR_app_CR (s : string) :
  strings.TrimRight_CR (s +:+ String "013" "") = strings.TrimRight_CR s.
Proof.
  induction s as [|c s IH]; [done|].
  change (String c s +:+ String "013" "") with (String c (s +:+ String "013" "")).
  cbn [strings.TrimRight_CR]. by rewrite IH.
Qed.

Lemma length_append (s t : string) :
  String.length (s +:+ t) = (String.length s + String.length t)%nat.
Proof.
  induction s as [|c s IH]; [done|].
  change (String c s +:+ t) with (String c (s +:+ t)).
  cbn [String.length]. by rewrite IH.
Qed.

(** A line is read the same with one more carriage return at its end, as
    long as it stays below the limit of the scanner with it: lines ending in
    CR LF and in LF alone give the same pairs. *)
Theorem Next_loop_extra_CR (after : string → Parser) (hs : list header)
    (raw : string) (r : list string) :
  Z.of_nat (String.length (raw +:+ String "013" "")) < bufio.MaxScanTokenSize →
  Next_loop hs (NewParser after ((raw +:+ String "013" "") :: r))
  = Next_loop hs (NewParser after (raw :: r)).
Proof.
  intros Hlen.
  assert (Z.of_nat (String.length raw) < bufio.MaxScanTokenSize) as Hraw.
  { rewrite length_append in Hlen. lia. }
  rewrite (NewParser_short after _ r Hlen), (NewParser_short after raw r Hraw).
  rewrite !Next_loop_line. by rewrite TrimRight_CR_app_CR.
Qed.

Lemma Next_loop_extra_CR_witness :
  Next_loop [] (NewParser bufio.final_token
                  [String "E" (String ":" (String " " (String "x"
                     (String "013" (String "013" "")))))])
  = Next_loop [] (NewParser bufio.final_token
                    [String "E" (String ":" (String " " (String "x"
                       (String "013" ""))))]).
Proof.
  apply (Next_loop_extra_CR bufio.final_token []
           (String "E" (String ":" (String " " (String "x" (String "013" ""))))) []).
  vm_compute. reflexivity.
Defined.

(** *** The reader: splitting a line *)

Lemma append_cons (c : ascii) (s t : string) : String c s +:+ t = String c (s +:+ t).
Proof. reflexivity. Qed.

Lemma append_nil (t : string) : "" +:+ t = t.
Proof. reflexivity. Qed.

Lemma substring_all (s : string) : String.substring 0 (String.length s) s = s.
Proof. induction s as [|c s IH]; [done|]. cbn. by rewrite IH. Qed.

Lemma HasPrefix_split (s p : string) :
  strings.HasPrefix s p = true →
  s = p +:+ String.substring (String.length p) (String.length s - String.length p) s.
Proof.
  revert s. induction p as [|a p IH]; intros s.
  - intros _. rewrite append_nil. cbn [String.length].
    by rewrite Nat.sub_0_r, substring_all.
  - destruct s as [|b s]; [done|]. cbn [strings.HasPrefix].
    intros [Hab Hp]%andb_true_iff. apply bool_decide_eq_true in Hab as ->.
    rewrite append_cons. cbn [String.length String.substring Nat.sub].
    f_equal. by apply IH.
Qed.

Lemma HasPrefix_append (a b p : string) :
  strings.HasPrefix a p = true → strings.HasPrefix (a +:+ b) p = true.
Proof.
  revert a. induction p as [|c p IH]; intros a.
  { intros _. by destruct (a +:+ b). }
  destruct a as [|d a]; [done|]. rewrite append_cons. cbn [strings.HasPrefix].
  intros [Hab Hp]%andb_true_iff. rewrite Hab. cbn [andb]. by apply IH.
Qed.

Lemma Index_ge_m1 (s sep : string) : -1 <= strings.Index s sep.
Proof.
  induction s as [|c s IH]; cbn [strings.Index].
  - destruct (strings.HasPrefix "" sep); lia.
  - destruct (strings.HasPrefix (String c s) sep); [lia|].
    destruct (Z.ltb_spec (strings.Index s sep) 0); lia.
Qed.

Lemma Index_split (s sep : string) :
  0 <= strings.Index s sep →
  let i := strings.Index s sep in
  strings.slice_to s i +:+ sep
    +:+ strings.slice_from s (i + Z.of_nat (String.length sep)) = s
  ∧ (sep ≠ "" → strings.Index (strings.slice_to s i) sep < 0).
Proof.
  unfold strings.slice_to, strings.slice_from.
  induction s as [|c s IH]; cbn [strings.Index].
  - destruct (strings.HasPrefix "" sep) eqn:Hp; [|lia]. intros _.
    destruct sep; [|done]. split; [done|]. by intros [].
  - destruct (strings.HasPrefix (String c s) sep) eqn:Hp.
    + intros _.
      replace (Z.to_nat (0 + Z.of_nat (String.length sep)))
        with (String.length sep) by lia.
      change (Z.to_nat 0) with 0%nat.
      change (String.substring 0 0 (String c s)) with "".
      split.
      * rewrite append_nil. symmetry. by apply HasPrefix_split.
      * intros Hne. destruct sep; [done|]. cbn. lia.
    + destruct (Z.ltb_spec (strings.Index s sep) 0) as [|Hr]; [lia|]. intros _.
      specialize (IH Hr). destruct IH as [IH1 IH2].
      set (r := strings.Index s sep) in *.
      replace (Z.to_nat (r + 1)) with (S (Z.to_nat r)) by lia.
      replace (Z.to_nat (r + 1 + Z.of_nat (String.length sep)))
        with (S (Z.to_nat (r + Z.of_nat (String.length sep)))) by lia.
      cbn [String.substring String.length Nat.sub]. rewrite append_cons.
      split.
      * by rewrite IH1.
      * intros Hne. cbn [strings.Index].
        destruct (strings.HasPrefix (String c (String.substring 0 (Z.to_nat r) s)) sep) eqn:Hp'.
        { apply (HasPrefix_append _ (sep +:+ String.substring (Z.to_nat (r + Z.of_nat (String.length sep)))
              (String.length s - Z.to_nat (r + Z.of_nat (String.length sep))) s)) in Hp'.
          rewrite append_cons, IH1 in Hp'. congruence. }
        specialize (IH2 Hne).
        destruct (Z.ltb_spec (strings.Index (String.substring 0 (Z.to_nat r) s) sep) 0); lia.
Qed.

(** A line below the limit of the scanner that has the separator is split
    at its first occurrence: key, separator and value put together are the
    line again (carriage returns stripped), and the key holds no separator;
    the value may. *)
Theorem line_with_separator (after : string → Parser) (hs : list header)
    (raw : string) (r : list string) :
  let line := strings.TrimRight_CR raw in
  Z.of_nat (String.length raw) < bufio.MaxScanTokenSize →
  0 <= strings.Index line ": " →
  ∃ key value,
    Next_loop hs (NewParser after (raw :: r))
    = Next_loop (hs ++ [{| Key := key; Value := value |}]) (NewParser after r)
    ∧ key +:+ ": " +:+ value = line
    ∧ strings.Index key ": " < 0.
Proof.
  intros line Hlen Hidx. subst line.
  destruct (Index_split (strings.TrimRight_CR raw) ": " Hidx) as [Hjoin Hkey].
  cbn [String.length] in Hjoin.
  eexists _, _. split; [|split; [exact Hjoin|by apply Hkey]].
  rewrite (NewParser_short after raw r Hlen), Next_loop_line. cbv zeta.
  destruct (decide (strings.TrimRight_CR raw = "")) as [Hempty|Hne].
  { rewrite Hempty in Hidx. vm_compute in Hidx. done. }
  rewrite (bool_decide_eq_false_2 _ Hne).
  destruct (Z.ltb_spec (strings.Index (strings.TrimRight_CR raw) ": ") 0); [lia|].
  done.
Qed.

Lemma line_with_separator_witness :
  ∃ key value,
    Next_loop [] (NewParser bufio.final_token ["Cause-txt: Normal: Clearing"; ""])
    = Next_loop [{| Key := key; Value := value |}]
        (NewParser bufio.final_token [""])
    ∧ key +:+ ": " +:+ value = "Cause-txt: Normal: Clearing"
    ∧ strings.Index key ": " < 0.
Proof.
  apply (line_with_separator bufio.final_token [] "Cause-txt: Normal: Clearing" [""]).
  - vm_compute. reflexivity.
  - vm_compute. discriminate.
Defined.

(** *** The integer accessor: values that are not numerals *)











(** ** Further properties of the correlator *)

(** *** Records that are ignored *)

(** [Process] emits nothing and leaves the correlator as it is for an
    acknowledgement, for a record without call id, for a record of a kind it
    does not know, and for any record other than a creation whose call id has
    no CallRecord (a late or unknown notification). *)
Theorem Process_ignores (c : Correlator) (evt : Event) (now : time.Time) :
  IsResponse evt = true
  ∨ call_id evt = ""
  ∨ Type_ evt ∉ ["Newchannel"; "DialBegin"; "Newstate"; "DialEnd"; "Hangup"]
  ∨ (Type_ evt ≠ "Newchannel" ∧ calls c !! call_id evt = None) →
  Process c evt now = ([], c).
Proof.
  unfold call_id, Process.
  intros [-> | [Hid | [Hty | [Hty Hl]]]]; [done| | |].
  - destruct (IsResponse evt); [done|]. by rewrite (bool_decide_eq_true_2 _ Hid).
  - destruct (IsResponse evt); [done|]. case_decision; [done|].
    repeat (case_decision; [exfalso; apply Hty; set_solver|]). done.
  - destruct (IsResponse evt); [done|]. case_decision; [done|].
    rewrite (bool_decide_eq_false_2 _ Hty).
    unfold handleDialBegin, handleNewstate, handleDialEnd, handleHangup.
    rewrite Hl. by repeat case_decision.
Qed.

Lemma Process_ignores_witness :
  Process c_cancelled (NewEvent ["Response"; "Success"; "Linkedid"; "test.1"]) t_2026
    = ([], c_cancelled)
  ∧ Process c_cancelled (NewEvent ["Event"; "PeerStatus"; "Linkedid"; "test.1"]) t_2026
    = ([], c_cancelled)
  ∧ Process New (ev_Hangup "unknown.1" "unknown.1" "16") t_2026 = ([], New).
Proof.
  split; [|split].
  - apply Process_ignores. left. vm_compute. reflexivity.
  - apply Process_ignores. right. right. left. vm_compute.
    intros Hin.
    repeat (apply elem_of_cons in Hin as [Hin|Hin]; [discriminate Hin|]).
    by apply elem_of_nil in Hin.
  - apply Process_ignores. right. right. right. split.
    + vm_compute. discriminate.
    + vm_compute. reflexivity.
Defined.

(** *** Calls do not interfere *)

Lemma Process_lookup_other (c : Correlator) (evt : Event) (now : time.Time)
    (id : string) :
  id ≠ call_id evt →
  calls (Process c evt now).2 !! id = calls c !! id.
Proof.
  intros Hne. destruct (Process_step c evt now); unfold store; cbn [calls];
    rewrite ?lookup_insert_ne, ?lookup_delete_ne by done; done.
Qed.

(** A record only touches the CallRecord of its own call id: the record of
    every other call id is after [Process] what it was before. *)
Theorem Process_other_calls (c : Correlator) (evt : Event) (now : time.Time)
    (id : string) :
  id ≠ call_id evt →
  calls (Process c evt now).2 !! id = calls c !! id.
Proof. apply Process_lookup_other. Qed.

Lemma Process_other_calls_witness :
  calls (Process c_cancelled (ev_Hangup "other.1" "other.1" "16") t_2026).2 !! "test.1"
  = calls c_cancelled !! "test.1".
Proof.
  apply Process_other_calls. vm_compute. discriminate.
Defined.

(** Every change [Process] emits is about the call of the record: it carries
    the record's call id, the clock reading of this call of [Process], and
    the endpoints held in the CallRecord before the call. *)
Theorem Process_change_contents (c : Correlator) (evt : Event) (now : time.Time)
    (ch : CallStateChange) :
  ch ∈ (Process c evt now).1 →
  ∃ cs, calls c !! call_id evt = Some cs
    ∧ CallID ch = call_id evt ∧ Timestamp ch = now
    ∧ From ch = from cs ∧ To ch = to cs.
Proof.
  destruct (Process_step c evt now) as
    [ | Hl | cs name Hl | cs Hl Hrung | cs ch' Hl Hans -> | cs Hl | cs ch' Hl Hleg -> ];
    try (by intros ?%elem_of_nil);
    intros ->%list_elem_of_singleton; by exists cs.
Qed.

(** The HungUp change of the cancelled call, terminated at once. *)
Definition h_cancelled : CallStateChange :=
  {| State := StateHungUp; CallID := "test.1";
     From := {| Extension := "1986"; Name := "Martin" |};
     To := {| Extension := "21"; Name := "" |};
     Timestamp := t_2026;
     RingDuration := 0; Cause := "cancelled";
     CauseDescription := cancelled_description;
     CauseCode := 16; TalkDuration := 0; TotalDuration := 0 |}.

Lemma Process_change_contents_witness :
  ∃ cs, calls c_cancelled !! call_id (ev_Hangup "test.1" "test.1" "16") = Some cs
    ∧ CallID h_cancelled = call_id (ev_Hangup "test.1" "test.1" "16")
    ∧ Timestamp h_cancelled = t_2026
    ∧ From h_cancelled = from cs ∧ To h_cancelled = to cs.
Proof.
  apply (Process_change_contents c_cancelled (ev_Hangup "test.1" "test.1" "16")
           t_2026 h_cancelled).
  vm_compute. left.
Defined.

(** *** Duplicate records *)

Lemma store_again (c : Correlator) (id : string) (cs cs' : callState) :
  store (store c id cs) id cs' = store c id cs'.
Proof. unfold store. cbn [calls]. by rewrite insert_insert_eq. Qed.

Lemma handleNewchannel_twice (c : Correlator) (evt : Event) (id : string) :
  handleNewchannel (handleNewchannel c evt id).2 evt id
  = ([], (handleNewchannel c evt id).2).
Proof.
  unfold handleNewchannel at 2 3.
  destruct (calls c !! id) eqn:Hl; cbn [snd]; unfold handleNewchannel.
  - by rewrite Hl.
  - unfold store at 1. cbn [calls]. by rewrite lookup_insert_eq.
Qed.

Lemma handleDialBegin_twice (c : Correlator) (evt : Event) (id : string) :
  handleDialBegin (handleDialBegin c evt id).2 evt id
  = ([], (handleDialBegin c evt id).2).
Proof.
  unfold handleDialBegin at 2 3.
  destruct (calls c !! id) as [cs|] eqn:Hl; cbn [snd].
  2:{ unfold handleDialBegin. by rewrite Hl. }
  destruct (decide (Name (to cs) = "")) as [Hname|Hname].
  - rewrite (bool_decide_eq_true_2 _ Hname).
    destruct (decide (Get evt "DestCallerIDName" ≠ "")) as [Hdest|Hdest].
    + rewrite (bool_decide_eq_true_2 _ Hdest). cbn [snd].
      unfold handleDialBegin, store at 1. cbn [calls].
      rewrite lookup_insert_eq. cbn [set_to_Name to Name].
      by rewrite (bool_decide_eq_false_2 (Get evt "DestCallerIDName" = "")).
    + rewrite (bool_decide_eq_false_2 _ Hdest). cbn [snd].
      unfold handleDialBegin. rewrite Hl, (bool_decide_eq_true_2 _ Hname).
      by rewrite (bool_decide_eq_false_2 _ Hdest).
  - rewrite (bool_decide_eq_false_2 _ Hname). cbn [snd].
    unfold handleDialBegin. by rewrite Hl, (bool_decide_eq_false_2 _ Hname).
Qed.

Lemma handleNewstate_twice (c : Correlator) (evt : Event) (id : string)
    (t1 t2 : time.Time) :
  handleNewstate (handleNewstate c evt id t1).2 evt id t2
  = ([], (handleNewstate c evt id t1).2).
Proof.
  unfold handleNewstate at 2 3.
  destruct (calls c !! id) as [cs|] eqn:Hl; cbn [snd].
  2:{ unfold handleNewstate. by rewrite Hl. }
  destruct (decide (Get evt "ChannelStateDesc" = "Ringing")) as [Hd|Hd].
  - rewrite (bool_decide_eq_true_2 _ Hd).
    destruct (rung cs) eqn:Hrung; cbn [snd]; unfold handleNewstate.
    + by rewrite Hl, (bool_decide_eq_true_2 _ Hd), Hrung.
    + unfold store at 1. cbn [calls].
      by rewrite lookup_insert_eq, (bool_decide_eq_true_2 _ Hd).
  - rewrite (bool_decide_eq_false_2 _ Hd).
    destruct (decide (Get evt "ChannelStateDesc" = "Up")) as [Hu|Hu].
    + rewrite (bool_decide_eq_true_2 _ Hu).
      destruct (answered cs) eqn:Hans; cbn [snd]; unfold handleNewstate.
      * by rewrite Hl, (bool_decide_eq_false_2 _ Hd), (bool_decide_eq_true_2 _ Hu), Hans.
      * unfold store at 1. cbn [calls]. rewrite lookup_insert_eq.
        by rewrite (bool_decide_eq_false_2 _ Hd), (bool_decide_eq_true_2 _ Hu).
    + rewrite (bool_decide_eq_false_2 _ Hu). cbn [snd]. unfold handleNewstate.
      by rewrite Hl, (bool_decide_eq_false_2 _ Hd), (bool_decide_eq_false_2 _ Hu).
Qed.

Lemma handleDialEnd_twice (c : Correlator) (evt : Event) (id : string) :
  handleDialEnd (handleDialEnd c evt id).2 evt id
  = ([], (handleDialEnd c evt id).2).
Proof.
  unfold handleDialEnd at 2 3.
  destruct (calls c !! id) as [cs|] eqn:Hl; cbn [snd].
  2:{ unfold handleDialEnd. by rewrite Hl. }
  destruct (decide (Get evt "DialStatus" = "CANCEL")) as [Hd|Hd].
  - rewrite (bool_decide_eq_true_2 _ Hd). cbn [snd]. unfold handleDialEnd.
    unfold store at 1. cbn [calls].
    rewrite lookup_insert_eq, (bool_decide_eq_true_2 _ Hd).
    by rewrite store_again.
  - rewrite (bool_decide_eq_false_2 _ Hd). cbn [snd]. unfold handleDialEnd.
    by rewrite Hl, (bool_decide_eq_false_2 _ Hd).
Qed.

Lemma handleHangup_twice (c : Correlator) (evt : Event) (id : string)
    (t1 t2 : time.Time) :
  handleHangup (handleHangup c evt id t1).2 evt id t2
  = ([], (handleHangup c evt id t1).2).
Proof.
  unfold handleHangup at 2 3.
  destruct (calls c !! id) as [cs|] eqn:Hl; cbn [snd].
  2:{ unfold handleHangup. by rewrite Hl. }
  destruct (decide (Get evt "Uniqueid" ≠ id)) as [Hu|Hu].
  - rewrite (bool_decide_eq_true_2 _ Hu). cbn [snd]. unfold handleHangup.
    by rewrite Hl, (bool_decide_eq_true_2 _ Hu).
  - rewrite (bool_decide_eq_false_2 _ Hu). cbn [snd]. unfold handleHangup.
    cbn [calls]. by rewrite lookup_delete_eq.
Qed.

(** A record that arrives twice in a row is absorbed the second time: it
    emits nothing and leaves the correlator as the first made it. This holds
    for every kind of record, whatever the two clock readings. *)
Theorem Process_duplicate (c : Correlator) (evt : Event) (t1 t2 : time.Time) :
  Process (Process c evt t1).2 evt t2 = ([], (Process c evt t1).2).
Proof.
  unfold Process.
  destruct (IsResponse evt); [done|].
  case_decision; [done|].
  case_decision; [apply handleNewchannel_twice|].
  case_decision; [apply handleDialBegin_twice|].
  case_decision; [apply handleNewstate_twice|].
  case_decision; [apply handleDialEnd_twice|].
  case_decision; [apply handleHangup_twice|done].
Qed.

(** *** Records opened, records finalized *)

Lemma opened_unchanged (id : string) (c c' : Correlator) :
  calls c' !! id = calls c !! id → opened id c c' = false.
Proof.
  intros Heq. unfold opened. apply bool_decide_eq_false_2.
  rewrite Heq. intros [-> [? ?]]. done.
Qed.

Lemma opened_tracked (id : string) (c c' : Correlator) (cs : callState) :
  calls c !! id = Some cs → opened id c c' = false.
Proof.
  intros Hl. unfold opened. apply bool_decide_eq_false_2.
  rewrite Hl. by intros [? _].
Qed.

Lemma pending_HungUp_store (c : Correlator) (id : string) (cs : callState) :
  pending StateHungUp (store c id cs) id = 1%nat.
Proof. unfold pending, store. cbn [calls]. by rewrite lookup_insert_eq. Qed.

Lemma emitted_HungUp_other (id : string) (ch : CallStateChange) :
  State ch ≠ StateHungUp ∨ CallID ch ≠ id → emitted StateHungUp id [ch] = 0%nat.
Proof.
  intros Hne. rewrite emitted_singleton.
  rewrite bool_decide_eq_false_2; [done|]. intros [? ?]. by destruct Hne.
Qed.

Lemma Process_settles (id : string) (c : Correlator) (evt : Event) (now : time.Time) :
  (emitted StateHungUp id (Process c evt now).1
   + pending StateHungUp (Process c evt now).2 id
   = (if opened id c (Process c evt now).2 then 1 else 0)
     + pending StateHungUp c id)%nat.
Proof.
  assert (∀ cs, calls c !! id = Some cs → pending StateHungUp c id = 1%nat) as Hone.
  { intros cs Hl. unfold pending. by rewrite Hl. }
  destruct (Process_step c evt now) as
    [ | Hl | cs name Hl | cs Hl Hrung | cs ch Hl Hans -> | cs Hl | cs ch Hl Hleg -> ];
    rewrite ?emitted_nil;
    (destruct (decide (call_id evt = id)) as [<-|Hne];
     [| rewrite ?pending_other, ?opened_store_other by done ]).
  - by rewrite opened_unchanged.
  - by rewrite opened_unchanged.
  - rewrite pending_HungUp_store. unfold opened, pending, store. cbn [calls].
    rewrite lookup_insert_eq, Hl. by rewrite bool_decide_eq_true_2 by eauto.
  - done.
  - by rewrite pending_HungUp_store, (opened_tracked _ _ _ cs), (Hone cs).
  - done.
  - rewrite pending_HungUp_store, (opened_tracked _ _ _ cs), (Hone cs) by done.
    by rewrite emitted_HungUp_other by (left; done).
  - by rewrite emitted_HungUp_other by (left; done).
  - rewrite pending_HungUp_store, (opened_tracked _ _ _ cs), (Hone cs) by done.
    by rewrite emitted_HungUp_other by (left; done).
  - by rewrite emitted_HungUp_other by (left; done).
  - by rewrite pending_HungUp_store, (opened_tracked _ _ _ cs), (Hone cs).
  - done.
  - rewrite (opened_tracked _ _ _ cs), (Hone cs) by done.
    rewrite emitted_singleton, bool_decide_eq_true_2 by done.
    unfold pending. cbn [calls]. by rewrite lookup_delete_eq.
  - rewrite emitted_HungUp_other by (right; done).
    rewrite opened_unchanged by (cbn [calls]; by rewrite lookup_delete_ne).
    unfold pending. cbn [calls]. by rewrite lookup_delete_ne.
Qed.

(** No CallRecord is lost or finalized twice: over any run, for every call
    id, the HungUp changes emitted plus the record still active (if any)
    equal the records opened during the run plus the record active at the
    start (if any). *)
Theorem records_opened_and_finalized (id : string) (c : Correlator)
    (evts : list (Event * time.Time)) :
  (emitted StateHungUp id (ProcessAll c evts).1
   + pending StateHungUp (ProcessAll c evts).2 id
   = openings id c evts + pending StateHungUp c id)%nat.
Proof.
  revert c. induction evts as [|[evt now] evts IH]; intros c.
  - cbn [ProcessAll fst snd openings]. rewrite emitted_nil. lia.
  - rewrite ProcessAll_cons. cbn [fst snd openings]. rewrite emitted_app.
    pose proof (Process_settles id c evt now).
    pose proof (IH (Process c evt now).2). lia.
Qed.

(** *** A call id used again *)

(** After the primary-leg termination of a call, a creation record with the
    same call id opens a record that is made from that creation record
    alone: nothing of the earlier call is in it. *)
Theorem reuse_after_hangup (c : Correlator) (hangup creation : Event)
    (t1 t2 : time.Time) :
  finalizes c hangup = true →
  notification "Newchannel" creation = true →
  call_id creation = call_id hangup →
  let c1 := (Process c hangup t1).2 in
  calls c1 !! call_id hangup = None
  ∧ Process c1 creation t2 = ([], store c1 (call_id hangup) (fresh_record creation)).
Proof.
  intros Hfin Hn Hid c1. subst c1.
  rewrite (Process_finalizes _ _ _ Hfin).
  assert (calls {| calls := delete (call_id hangup) (calls c) |} !! call_id hangup
          = None) as Hgone by apply lookup_delete_eq.
  split; [done|]. rewrite <- Hid in *.
  apply Process_opens, opens_spec.
  apply notification_spec in Hn as (? & ? & ?). done.
Qed.

Lemma reuse_after_hangup_witness :
  let c1 := (Process c_cancelled (ev_Hangup "test.1" "test.1" "16") t_2026).2 in
  let creation := ev_Newchannel "test.1" "21" "Kitchen" "1986" in
  calls c1 !! "test.1" = None
  ∧ Process c1 creation t_2026 = ([], store c1 "test.1" (fresh_record creation)).
Proof.
  apply (reuse_after_hangup c_cancelled (ev_Hangup "test.1" "test.1" "16")
           (ev_Newchannel "test.1" "21" "Kitchen" "1986") t_2026 t_2026).
  - vm_compute. reflexivity.
  - vm_compute. reflexivity.
  - vm_compute. reflexivity.
Defined.

(** *** The cause of a HungUp change *)

Lemma CauseTranslator_nonempty (code : Z) :
  CauseName (CauseTranslator code) ≠ "" ∧ Description (CauseTranslator code) ≠ "".
Proof.
  unfold CauseTranslator.
  destruct (HangupCause !! code) as [info|] eqn:Hl; cbn [default]; [|done].
  unfold HangupCause in Hl. apply elem_of_list_to_map_2 in Hl.
  repeat (apply elem_of_cons in Hl as [[= _ ->]|Hl]; [done|]).
  by apply elem_of_nil in Hl.
Qed.

(** Every HungUp change names its cause: cause name and cause description
    are never empty, whatever the numeric code of the record. *)
Theorem HungUp_cause_nonempty (c : Correlator) (evt : Event) (now : time.Time)
    (ch : CallStateChange) :
  ch ∈ (Process c evt now).1 → State ch = StateHungUp →
  Cause ch ≠ "" ∧ CauseDescription ch ≠ "".
Proof.
  destruct (Process_step c evt now) as
    [ | Hl | cs name Hl | cs Hl Hrung | cs ch' Hl Hans -> | cs Hl | cs ch' Hl Hleg -> ];
    try (by intros ?%elem_of_nil);
    intros ->%list_elem_of_singleton; try done.
  intros _. cbn [Cause CauseDescription]. unfold resolve_cause.
  destruct (cancelled cs && negb (answered cs)); [done|].
  apply CauseTranslator_nonempty.
Qed.

Lemma HungUp_cause_nonempty_witness :
  Cause h_cancelled ≠ "" ∧ CauseDescription h_cancelled ≠ "".
Proof.
  apply (HungUp_cause_nonempty c_cancelled (ev_Hangup "test.1" "test.1" "16")
           t_2026 h_cancelled).
  - vm_compute. left.
  - reflexivity.
Defined.

(** *** Durations are not negative *)

Lemma ring_duration_nonneg (L : list CallState) (cs : callState) (T now : time.Time) :
  T <= now → shape L cs T → (0 <= ring_duration cs now)%Q.
Proof.
  intros HT Hshape. unfold ring_duration, time.IsZero.
  destruct (Z.eqb_spec (ringTime cs) 0); [done|].
  apply Seconds_nonneg, Sub_nonneg.
  shape_cases L; intuition lia.
Qed.

Lemma talk_duration_nonneg (L : list CallState) (cs : callState) (T now : time.Time) :
  T <= now → shape L cs T → (0 <= talk_duration cs now)%Q.
Proof.
  intros HT Hshape. unfold talk_duration, time.IsZero.
  destruct (answered cs) eqn:Hans; [|done].
  destruct (Z.eqb_spec (answerTime cs) 0); [done|]. cbn [andb negb].
  apply Seconds_nonneg, Sub_nonneg.
  shape_cases L; intuition (congruence || lia).
Qed.

Definition durations_nonneg (ch : CallStateChange) : Prop :=
  (0 <= RingDuration ch)%Q ∧ (0 <= TalkDuration ch)%Q ∧ (0 <= TotalDuration ch)%Q.

Lemma step_durations_nonneg (T now : time.Time) (c c' : Correlator) (evt : Event)
    (out o : list CallStateChange) :
  T <= now → consistent T c out → step c evt now o c' →
  Forall durations_nonneg o.
Proof.
  intros HT Hc Hstep.
  destruct Hstep as
    [ | Hl | cs name Hl | cs Hl Hrung | cs ch Hl Hans -> | cs Hl | cs ch Hl Hleg -> ];
    try done.
  - by repeat constructor.
  - specialize (Hc (call_id evt)). rewrite Hl in Hc.
    repeat constructor; cbn; try done. by eapply ring_duration_nonneg.
  - specialize (Hc (call_id evt)). rewrite Hl in Hc.
    repeat constructor; cbn; try done.
    + by eapply talk_duration_nonneg.
    + by eapply ring_duration_nonneg.
Qed.

Lemma ProcessAll_durations_nonneg (evts : list (Event * time.Time)) (T : time.Time)
    (c : Correlator) (out0 : list CallStateChange) :
  0 < T → clock_monotone T evts → consistent T c out0 →
  Forall durations_nonneg (ProcessAll c evts).1.
Proof.
  revert T c out0. induction evts as [|[evt now] evts IH];
    intros T c out0 HT0 Hmono Hc; [done|].
  destruct Hmono as [HT Hmono]. rewrite ProcessAll_cons. cbn [fst].
  pose proof (Process_step c evt now) as Hstep.
  apply Forall_app. split.
  - by eapply step_durations_nonneg.
  - destruct (step_consistent T now c _ evt out0 _ HT0 HT Hc Hstep) as [Hc1 _].
    eapply (IH now); [lia|done|done].
Qed.

(** Under a clock that never goes back and starts after the zero instant,
    every duration in every change a fresh correlator emits (ring, talk and
    total) is at least 0. *)
Theorem emitted_durations_nonneg (T0 : time.Time) (evts : list (Event * time.Time)) :
  0 < T0 → clock_monotone T0 evts →
  Forall durations_nonneg (ProcessAll New evts).1.
Proof.
  intros HT0 Hmono.
  by apply (ProcessAll_durations_nonneg evts T0 New [] HT0 Hmono), consistent_New.
Qed.

Lemma emitted_durations_nonneg_witness :
  Forall durations_nonneg (ProcessAll New run_answered_unrung).1.
Proof.
  apply (emitted_durations_nonneg t_2026).
  - reflexivity.
  - vm_compute. repeat split; discriminate.
Defined.

(** *** The endpoints of a call *)

Lemma handleDialBegin_to (c : Correlator) (evt : Event) (id : string)
    (cs cs' : callState) :
  calls c !! id = Some cs →
  calls (handleDialBegin c evt id).2 !! id = Some cs' →
  Name (to cs) ≠ "" → to cs' = to cs.
Proof.
  intros Hl Hl' Hname. unfold handleDialBegin in Hl'. rewrite Hl in Hl'.
  rewrite (bool_decide_eq_false_2 _ Hname) in Hl'. cbn [snd] in Hl'. congruence.
Qed.

Lemma Process_to_named (c : Correlator) (evt : Event) (now : time.Time)
    (id : string) (cs cs' : callState) :
  calls c !! id = Some cs →
  calls (Process c evt now).2 !! id = Some cs' →
  Name (to cs) ≠ "" → to cs' = to cs.
Proof.
  intros Hl Hl' Hname.
  destruct (decide (id = call_id evt)) as [->|Hne].
  2:{ rewrite Process_lookup_other in Hl' by done. congruence. }
  unfold call_id in *. unfold Process in Hl'.
  destruct (IsResponse evt); [cbn [snd] in Hl'; congruence|].
  revert Hl'. case_decision; [cbn [snd]; congruence|].
  case_decision.
  { unfold handleNewchannel. rewrite Hl. cbn [snd]. congruence. }
  case_decision.
  { intros Hl'. by eapply handleDialBegin_to. }
  case_decision.
  { unfold handleNewstate. rewrite Hl.
    repeat case_decision; repeat case_match; unfold store; cbn [snd calls];
      rewrite ?lookup_insert_eq; intros; by simplify_eq. }
  case_decision.
  { unfold handleDialEnd. rewrite Hl.
    case_decision; unfold store; cbn [snd calls];
      rewrite ?lookup_insert_eq; intros; by simplify_eq. }
  case_decision; [|cbn [snd]; congruence].
  unfold handleHangup. rewrite Hl.
  case_decision; cbn [snd calls]; rewrite ?lookup_delete_eq; intros; by simplify_eq.
Qed.

(** While a CallRecord lives, its caller endpoint and its destination
    extension stay as the creation record gave them; the destination display
    name can be filled in while it is empty, and once it is not empty it
    stays. *)
Theorem endpoints_stable (c : Correlator) (evt : Event) (now : time.Time)
    (id : string) (cs cs' : callState) :
  calls c !! id = Some cs →
  calls (Process c evt now).2 !! id = Some cs' →
  from cs' = from cs
  ∧ Extension (to cs') = Extension (to cs)
  ∧ (Name (to cs) ≠ "" → to cs' = to cs).
Proof.
  intros Hl Hl'. split; [|split]; [| |by eapply Process_to_named].
  - revert Hl'. destruct (Process_step c evt now); unfold store; cbn [calls];
      (destruct (decide (id = call_id evt)) as [->|Hne];
       [rewrite ?lookup_insert_eq, ?lookup_delete_eq
       |rewrite ?lookup_insert_ne, ?lookup_delete_ne by done]);
      intros; by simplify_eq.
  - revert Hl'. destruct (Process_step c evt now); unfold store; cbn [calls];
      (destruct (decide (id = call_id evt)) as [->|Hne];
       [rewrite ?lookup_insert_eq, ?lookup_delete_eq
       |rewrite ?lookup_insert_ne, ?lookup_delete_ne by done]);
      intros; by simplify_eq.
Qed.

Lemma endpoints_stable_witness :
  let cs' := set_answered cs_cancelled t_2026 in
  from cs' = from cs_cancelled
  ∧ Extension (to cs') = Extension (to cs_cancelled)
  ∧ (Name (to cs_cancelled) ≠ "" → to cs' = to cs_cancelled).
Proof.
  apply (endpoints_stable c_cancelled (ev_Newstate "test.1" "test.2" "Up")
           t_2026 "test.1" cs_cancelled (set_answered cs_cancelled t_2026)).
  - vm_compute. reflexivity.
  - vm_compute. reflexivity.
Defined.

(** ** internal/config: validation *)

Module config.

Record AMIConfig := {
  Host : string;
  Port : Z;
  Username : string;
  Secret : string
}.

Record MQTTConfig := {
  Broker : string;
  ClientID : string;
  TopicPrefix : string
}.

Record Config := { AMI : AMIConfig; MQTT : MQTTConfig }.

(** The configuration [Load] starts from, before the file is read into it. *)
Definition defaults : Config :=
  {| AMI := {| Host := "127.0.0.1"; Port := 5038; Username := ""; Secret := "" |};
     MQTT := {| Broker := "tcp://localhost:1883"; ClientID := "asterisk-mqtt";
                TopicPrefix := "asterisk" |} |}.

(** [validate]: [None] is the nil error, [Some msg] the error with that
    message; the port is printed by the verb %d. *)
Definition validate (c : Config) : option string :=
  if bool_decide (Host (AMI c) = "") then Some "ami.host is required"
  else if (Port (AMI c) <? 1) || (65535 <? Port (AMI c)) then
    Some ("ami.port must be between 1 and 65535, got " +:+ pretty (Port (AMI c)))
  else if bool_decide (Username (AMI c) = "") then Some "ami.username is required"
  else if bool_decide (Secret (AMI c) = "") then Some "ami.secret is required"
  else if bool_decide (Broker (MQTT c) = "") then Some "mqtt.broker is required"
  else if bool_decide (ClientID (MQTT c) = "") then Some "mqtt.client_id is required"
  else if bool_decide (TopicPrefix (MQTT c) = "") then
    Some "mqtt.topic_prefix is required"
  else None.

End config.

(** A configuration passes [validate] exactly when the host, the user name,
    the secret, the broker, the client id and the topic prefix are not empty
    and the port is between 1 and 65535. *)
Theorem validate_accepts (c : config.Config) :
  config.validate c = None ↔
    config.Host (config.AMI c) ≠ ""
    ∧ 1 <= config.Port (config.AMI c) <= 65535
    ∧ config.Username (config.AMI c) ≠ ""
    ∧ config.Secret (config.AMI c) ≠ ""
    ∧ config.Broker (config.MQTT c) ≠ ""
    ∧ config.ClientID (config.MQTT c) ≠ ""
    ∧ config.TopicPrefix (config.MQTT c) ≠ "".
Proof.
  unfold config.validate.
  repeat case_decision;
    destruct (Z.ltb_spec (config.Port (config.AMI c)) 1);
    destruct (Z.ltb_spec 65535 (config.Port (config.AMI c)));
    cbn [orb]; split; try done; try (intros (? & ? & ? & ? & ? & ? & ?); done || lia).
  all: intros _; repeat split; done || lia.
Qed.

(** The first check that fails decides the error: an empty host is reported
    whatever else is wrong, and with a host a port out of range is reported
    with its number, whatever else is wrong. *)
Theorem validate_reports_first (c : config.Config) :
  (config.Host (config.AMI c) = "" →
   config.validate c = Some "ami.host is required")
  ∧ (config.Host (config.AMI c) ≠ "" →
     config.Port (config.AMI c) < 1 ∨ 65535 < config.Port (config.AMI c) →
     config.validate c =
       Some ("ami.port must be between 1 and 65535, got "
             +:+ pretty (config.Port (config.AMI c)))).
Proof.
  unfold config.validate. split.
  - intros Hhost. by rewrite (bool_decide_eq_true_2 _ Hhost).
  - intros Hhost Hport. rewrite (bool_decide_eq_false_2 _ Hhost).
    destruct (Z.ltb_spec (config.Port (config.AMI c)) 1);
      destruct (Z.ltb_spec 65535 (config.Port (config.AMI c))); cbn [orb];
      done || lia.
Qed.

Definition config_port_70000 : config.Config :=
  {| config.AMI := {| config.Host := "127.0.0.1"; config.Port := 70000;
                      config.Username := "admin"; config.Secret := "" |};
     config.MQTT := config.MQTT config.defaults |}.

Lemma validate_reports_first_witness :
  config.validate config_port_70000
  = Some "ami.port must be between 1 and 65535, got 70000".
Proof.
  destruct (validate_reports_first config_port_70000) as [_ Hport].
  apply Hport.
  - vm_compute. discriminate.
  - right. reflexivity.
Defined.

Definition config_minimal : config.Config :=
  {| config.AMI := {| config.Host := "127.0.0.1"; config.Port := 5038;
                      config.Username := "admin"; config.Secret := "s3cret" |};
     config.MQTT := config.MQTT config.defaults |}.

Lemma validate_accepts_witness : config.validate config_minimal = None.
Proof.
  apply validate_accepts. vm_compute.
  repeat split; discriminate.
Defined.

(** ** cmd/asterisk-mqtt: publishing the changes *)

Module publisher.

(** A Go [error], by its message; [None] is nil. *)
Definition error := option string.

Record Message := { Topic : string; Payload : string }.

(** The [Publisher] interface. A method answers with its error and the
    publisher as it is afterwards. *)
Class Publisher (P : Type) := {
  Publish : P → string → string → error * P;
  Close : P → error * P
}.

Record MockPublisher := {
  messages : list Message;
  closed : bool;
  err : error
}.

Definition NewMockPublisher : MockPublisher :=
  {| messages := []; closed := false; err := None |}.

Definition Mock_Publish (m : MockPublisher) (topic payload : string)
  : error * MockPublisher :=
  match err m with
  | Some e => (Some e, m)
  | None =>
      (None, {| messages := messages m ++ [{| Topic := topic; Payload := payload |}];
                closed := closed m; err := err m |})
  end.

Definition Mock_Close (m : MockPublisher) : error * MockPublisher :=
  (None, {| messages := messages m; closed := true; err := err m |}).

Definition Messages (m : MockPublisher) : list Message := messages m.

Definition SetError (m : MockPublisher) (e : error) : MockPublisher :=
  {| messages := messages m; closed := closed m; err := e |}.

#[global] Instance MockPublisher_Publisher : Publisher MockPublisher :=
  {| Publish := Mock_Publish; Close := Mock_Close |}.

End publisher.

Module bridge.

Import publisher.

(** The string a [CallState] is. *)
Definition CallState_string (st : CallState) : string :=
  match st with
  | StateRinging => "ringing"
  | StateAnswered => "answered"
  | StateHungUp => "hungup"
  end.

Record endpoint := { endpoint_Extension : string; endpoint_Name : string }.

(** [mqttPayload]; a pointer field is an option. *)
Record mqttPayload := {
  p_Event : string;
  p_Description : string;
  p_CallID : string;
  p_From : endpoint;
  p_To : endpoint;
  p_Timestamp : string;
  p_RingDuration : option Q;
  p_Cause : string;
  p_CauseDescription : string;
  p_CauseCode : option Z;
  p_TalkDuration : option Q;
  p_TotalDuration : option Q
}.

Definition stateDescriptions (st : CallState) : string :=
  match st with
  | StateRinging => "A call is ringing and waiting to be answered"
  | StateAnswered => "The call has been answered and parties are now connected"
  | StateHungUp => "The call has ended"
  end.

(** The topic of a change: prefix/call/id/state. *)
Definition topic (prefix : string) (change : CallStateChange) : string :=
  prefix +:+ "/call/" +:+ CallID change +:+ "/" +:+ CallState_string (State change).

Section publishing.

(** [json.Marshal] on a payload (the bytes, or the message of its error)
    and the RFC 3339 rendering of an instant in UTC are taken as given. *)
Variable Marshal : mqttPayload → string + string.
Variable FormatRFC3339 : time.Time → string.

Definition payload_of (change : CallStateChange) : mqttPayload :=
  let common ring cause desc code talk total :=
    {| p_Event := CallState_string (State change);
       p_Description := stateDescriptions (State change);
       p_CallID := CallID change;
       p_From := {| endpoint_Extension := Extension (From change);
                    endpoint_Name := Name (From change) |};
       p_To := {| endpoint_Extension := Extension (To change);
                  endpoint_Name := Name (To change) |};
       p_Timestamp := FormatRFC3339 (Timestamp change);
       p_RingDuration := ring; p_Cause := cause; p_CauseDescription := desc;
       p_CauseCode := code; p_TalkDuration := talk; p_TotalDuration := total |} in
  match State change with
  | StateRinging => common None "" "" None None None
  | StateAnswered => common (Some (RingDuration change)) "" "" None None None
  | StateHungUp =>
      common None (Cause change) (CauseDescription change)
             (Some (CauseCode change)) (Some (TalkDuration change))
             (Some (TotalDuration change))
  end.

Definition publishChange {P : Type} `{Publisher P} (pub : P) (prefix : string)
    (change : CallStateChange) : error * P :=
  match Marshal (payload_of change) with
  | inr e => (Some ("marshaling payload: " +:+ e), pub)
  | inl data => Publish pub (topic prefix change) data
  end.

(** The inner loop of [runSession]: every change is published; an error is
    logged and the loop goes on. *)
Fixpoint publishChanges {P : Type} `{Publisher P} (pub : P) (prefix : string)
    (changes : list CallStateChange) : P :=
  match changes with
  | [] => pub
  | change :: changes' =>
      publishChanges (publishChange pub prefix change).2 prefix changes'
  end.

(** The event loop of [runSession] over the events the parser delivers, each
    with the clock reading during its [Process] call. *)
Fixpoint pump {P : Type} `{Publisher P} (corr : Correlator) (pub : P)
    (prefix : string) (evts : list (Event * time.Time)) : Correlator * P :=
  match evts with
  | [] => (corr, pub)
  | (evt, now) :: evts' =>
      let '(changes, corr') := Process corr evt now in
      pump corr' (publishChanges pub prefix changes) prefix evts'
  end.

End publishing.

End bridge.

(** *** Topics *)

Import publisher bridge.

Fixpoint has_byte (x : ascii) (s : string) : bool :=
  match s with
  | EmptyString => false
  | String c s' => bool_decide (c = x) || has_byte x s'
  end.

Lemma append_cancel_l (p a b : string) : p +:+ a = p +:+ b → a = b.
Proof.
  induction p as [|c p IH]; [done|].
  rewrite !append_cons. intros [= Heq]. by apply IH.
Qed.

Lemma has_byte_append (x : ascii) (a b : string) :
  has_byte x (a +:+ String x b) = true.
Proof.
  induction a as [|c a IH].
  - rewrite append_nil. cbn [has_byte]. by rewrite bool_decide_eq_true_2.
  - rewrite append_cons. cbn [has_byte]. rewrite IH. apply orb_true_r.
Qed.

(** The last occurrence of a byte splits a string in one way only. *)
Lemma split_last_unique (x : ascii) (u v a b : string) :
  has_byte x a = false → has_byte x b = false →
  u +:+ String x a = v +:+ String x b → u = v ∧ a = b.
Proof.
  intros Ha Hb. revert v. induction u as [|c u IH]; intros [|d v];
    rewrite ?append_nil, ?append_cons.
  - by intros [= ->].
  - intros [= <- ->]. by rewrite has_byte_append in Ha.
  - intros [= -> <-]. by rewrite has_byte_append in Hb.
  - intros [= -> Heq]. destruct (IH v Heq) as [-> ->]. done.
Qed.

(** The topic format on strings: [%s/call/%s/%s]. *)
Definition topic_of (prefix id state : string) : string :=
  prefix +:+ "/call/" +:+ id +:+ "/" +:+ state.

(** A state without a "/" can be told from the topic, and the call id with
    it, whatever bytes the call id holds. *)
Lemma topic_of_injective (prefix id1 id2 st1 st2 : string) :
  has_byte "/" st1 = false → has_byte "/" st2 = false →
  topic_of prefix id1 st1 = topic_of prefix id2 st2 →
  id1 = id2 ∧ st1 = st2.
Proof.
  unfold topic_of. intros H1 H2 Heq.
  apply append_cancel_l, (append_cancel_l "/call/") in Heq.
  by apply (split_last_unique "/"%char).
Qed.

(** The correlator makes its changes with [StateRinging], [StateAnswered]
    and [StateHungUp] only, and none of the three strings holds a "/". *)
Lemma CallState_string_no_slash (st : CallState) :
  has_byte "/" (CallState_string st) = false.
Proof. by destruct st. Qed.

Lemma CallState_string_inj (st1 st2 : CallState) :
  CallState_string st1 = CallState_string st2 → st1 = st2.
Proof. by destruct st1, st2. Qed.

(** With one prefix, the topic tells the call id and the state of a change
    a correlator has emitted: two such changes published under the same
    topic are of the same call and the same state. (A [CallState] is a
    string in the source; for a change made elsewhere with a "/" in its
    state this would fail.) *)
Theorem topic_injective (prefix : string) (c1 c2 : Correlator)
    (evts1 evts2 : list (Event * time.Time)) (ch1 ch2 : CallStateChange) :
  ch1 ∈ (ProcessAll c1 evts1).1 →
  ch2 ∈ (ProcessAll c2 evts2).1 →
  topic prefix ch1 = topic prefix ch2 →
  CallID ch1 = CallID ch2 ∧ State ch1 = State ch2.
Proof.
  intros _ _ Heq.
  change (topic_of prefix (CallID ch1) (CallState_string (State ch1))
          = topic_of prefix (CallID ch2) (CallState_string (State ch2))) in Heq.
  apply topic_of_injective in Heq as [Hid Hst];
    [|apply CallState_string_no_slash..].
  split; [done|]. by apply CallState_string_inj.
Qed.

(** The HungUp change of the answered call of scenario A. *)
Definition h_answered : CallStateChange :=
  {| State := StateHungUp; CallID := "test.1";
     From := {| Extension := "1986"; Name := "Martin" |};
     To := {| Extension := "21"; Name := "" |};
     Timestamp := time.Add t_2026 (35 * time.Second);
     RingDuration := 0; Cause := "normal_clearing";
     CauseDescription := "The call was hung up normally by one of the parties";
     CauseCode := 16; TalkDuration := 30; TotalDuration := 35 |}.

Lemma topic_injective_witness :
  h_answered ≠ h_cancelled
  ∧ CallID h_answered = CallID h_cancelled
  ∧ State h_answered = State h_cancelled.
Proof.
  split; [discriminate|].
  apply (topic_injective "asterisk" New c_cancelled run_answered
           [(ev_Hangup "test.1" "test.1" "16", t_2026)]).
  - vm_compute. right. right. left.
  - vm_compute. left.
  - reflexivity.
Defined.

(** *** The event loop *)

Section loop.

Variable Marshal : mqttPayload → string + string.
Variable FormatRFC3339 : time.Time → string.

(** Correlation does not depend on publishing: whatever the publisher and
    the encoder do, the correlator the loop ends with is the one [ProcessAll]
    ends with. *)
Theorem pump_correlator {P : Type} `{Publisher P} (corr : Correlator) (pub : P)
    (prefix : string) (evts : list (Event * time.Time)) :
  (pump Marshal FormatRFC3339 corr pub prefix evts).1 = (ProcessAll corr evts).2.
Proof.
  revert corr pub. induction evts as [|[evt now] evts IH]; intros corr pub; [done|].
  rewrite ProcessAll_cons. cbn [pump snd].
  destruct (Process corr evt now) as [changes corr']. apply IH.
Qed.

Lemma publishChanges_mock (m : MockPublisher) (prefix : string)
    (changes : list CallStateChange) :
  err m = None → (∀ p, ∃ data, Marshal p = inl data) →
  let m' := publishChanges Marshal FormatRFC3339 m prefix changes in
  err m' = None
  ∧ closed m' = closed m
  ∧ Topic <$> messages m' = (Topic <$> messages m) ++ (topic prefix <$> changes).
Proof.
  intros Herr Hmarshal. revert m Herr.
  induction changes as [|ch changes IH]; intros m Herr; cbn [publishChanges].
  - cbn [fmap list_fmap]. by rewrite app_nil_r.
  - unfold publishChange at 1 2 3.
    destruct (Hmarshal (payload_of FormatRFC3339 ch)) as [data ->].
    cbn [Publish MockPublisher_Publisher]. unfold Mock_Publish. rewrite Herr.
    cbn [snd].
    set (m1 := {| messages := _; closed := _; err := _ |}).
    destruct (IH m1 eq_refl) as (He & Hc & Ht).
    split; [done|]. split; [done|].
    rewrite Ht. subst m1. cbn [messages]. rewrite fmap_app. cbn [fmap list_fmap].
    by rewrite <- app_assoc.
Qed.

(** With a publisher that accepts everything and an encoder that does not
    fail, the loop publishes exactly one message per change the correlator
    emits, in the order of emission, each under the topic of its change. *)
Theorem pump_publishes_in_order (corr : Correlator) (m : MockPublisher)
    (prefix : string) (evts : list (Event * time.Time)) :
  err m = None → (∀ p, ∃ data, Marshal p = inl data) →
  Topic <$> Messages (pump Marshal FormatRFC3339 corr m prefix evts).2
  = (Topic <$> Messages m) ++ (topic prefix <$> (ProcessAll corr evts).1).
Proof.
  intros Herr Hmarshal. unfold Messages. revert corr m Herr.
  induction evts as [|[evt now] evts IH]; intros corr m Herr.
  - cbn. by rewrite app_nil_r.
  - rewrite ProcessAll_cons. cbn [pump fst].
    destruct (Process corr evt now) as [changes corr']. cbn [fst snd].
    destruct (publishChanges_mock m prefix changes Herr Hmarshal) as (He & _ & Ht).
    rewrite IH by done. rewrite Ht, fmap_app. by rewrite app_assoc.
Qed.

End loop.

Lemma pump_publishes_in_order_witness :
  Topic <$> Messages (pump (λ _, inl "{}") (λ _, "") New NewMockPublisher
                        "asterisk" run_answered).2
  = [ "asterisk/call/test.1/ringing"; "asterisk/call/test.1/answered";
      "asterisk/call/test.1/hungup" ].
Proof.
  refine (eq_trans
    (pump_publishes_in_order (λ _, inl "{}") (λ _, "") New NewMockPublisher
       "asterisk" run_answered _ _) _).
  - reflexivity.
  - intros p. exists "{}". reflexivity.
  - vm_compute. reflexivity.
Defined.

(** ** The reader: blank lines frame the records *)

Lemma Next_loop_app_blank (p1 p2 : Parser) (hs : list header) :
  Forall is_Some p1 →
  match Next_loop hs p1 with
  | (Some evt, q) =>
      Forall is_Some q
      ∧ (Next_loop hs (p1 ++ Some "" :: p2) = (Some evt, q ++ Some "" :: p2)
         ∨ (q = [] ∧ Next_loop hs (p1 ++ Some "" :: p2) = (Some evt, p2)))
  | (None, _) => Next_loop hs (p1 ++ Some "" :: p2) = Next_loop [] p2
  end.
Proof.
  intros Hp1. revert hs. induction Hp1 as [|a p1 [text ->] Hp1 IH]; intros hs.
  - cbn. destruct hs; [done|]. split; [done|]. by right.
  - cbn [app Next_loop]. case_decision.
    + destruct hs; [apply IH|]. split; [done|]. by left.
    + destruct (strings.Index _ _ <? 0); [|apply IH].
      destruct hs; apply IH.
Qed.

Lemma ParseAll_nil : ParseAll [] = [].
Proof. done. Qed.

Lemma ParseAll_app_blank (p1 p2 : Parser) :
  Forall is_Some p1 →
  ParseAll (p1 ++ Some "" :: p2) = ParseAll p1 ++ ParseAll p2.
Proof.
  remember (length p1) as n eqn:Hn. revert p1 Hn.
  induction n as [n IH] using lt_wf_ind. intros p1 -> Hp1.
  rewrite (ParseAll_unfold (p1 ++ Some "" :: p2)), (ParseAll_unfold p1).
  unfold Next.
  pose proof (Next_loop_app_blank p1 p2 [] Hp1) as Happ.
  destruct (Next_loop [] p1) as [[evt|] q] eqn:Hnext.
  - apply Next_loop_consumes in Hnext as [_ Hlt]. specialize (Hlt eq_refl).
    destruct Happ as [Hq [-> | [-> ->]]].
    + cbn [app]. f_equal. by apply (IH (length q)).
    + by rewrite ParseAll_nil.
  - rewrite Happ. cbn [app]. symmetry. apply ParseAll_unfold.
Qed.

(** Lines below the limit of the scanner are delivered one by one, and the
    scanner goes on with what follows them. *)
Lemma NewParser_app_short (after : string → Parser) (r1 r2 : list string) :
  Forall (λ raw, Z.of_nat (String.length raw) < bufio.MaxScanTokenSize) r1 →
  NewParser after (r1 ++ r2) = NewParser after r1 ++ NewParser after r2
  ∧ Forall is_Some (NewParser after r1).
Proof.
  induction 1 as [|raw r1 Hraw _ [IH1 IH2]]; [done|].
  cbn [app]. rewrite !(NewParser_short after raw _ Hraw), IH1. split; [done|].
  constructor; [by eexists|done].
Qed.

(** A blank line ends the record before it for good: when every line
    before a blank line is below the limit of the scanner, the records of
    the input are the records of the part before the blank line followed by
    the records of the part after it. *)
Theorem ParseAll_blank_line_splits (after : string → Parser) (r1 r2 : list string) :
  Forall (λ raw, Z.of_nat (String.length raw) < bufio.MaxScanTokenSize) r1 →
  ParseAll (NewParser after (r1 ++ "" :: r2))
  = ParseAll (NewParser after r1) ++ ParseAll (NewParser after r2).
Proof.
  intros Hr1.
  destruct (NewParser_app_short after r1 ("" :: r2) Hr1) as [-> Hsome].
  assert (NewParser after ("" :: r2) = Some "" :: NewParser after r2) as ->.
  { by apply (NewParser_short after "" r2). }
  by apply ParseAll_app_blank.
Qed.

Lemma ParseAll_blank_line_splits_witness :
  ParseAll (NewParser bufio.final_token
              (["Event: Newchannel"; "Linkedid: a.1"] ++
               "" :: ["Event: Hangup"; "Linkedid: a.1"; "Cause: 16"]))
  = ParseAll (NewParser bufio.final_token
                ["Event: Newchannel"; "Linkedid: a.1"])
    ++ ParseAll (NewParser bufio.final_token
                   ["Event: Hangup"; "Linkedid: a.1"; "Cause: 16"]).
Proof.
  apply (ParseAll_blank_line_splits bufio.final_token).
  repeat constructor; vm_compute; reflexivity.
Defined.

(** ** The number of active calls *)

(** [ActiveCalls] goes up by one when a record is opened, down by one when
    a call is finalized, and stays as it is for every other record. *)
Theorem ActiveCalls_step (c : Correlator) (evt : Event) (now : time.Time) :
  ActiveCalls (Process c evt now).2 =
    if opens c evt then S (ActiveCalls c)
    else if finalizes c evt then pred (ActiveCalls c)
    else ActiveCalls c.
Proof.
  destruct (opens c evt) eqn:Ho.
  - rewrite Process_opens by done. cbn [snd]. unfold ActiveCalls, store. cbn [calls].
    apply map_size_insert_None. by apply opens_spec in Ho as (_ & _ & _ & Hl).
  - destruct (finalizes c evt) eqn:Hf.
    + rewrite Process_finalizes by done. unfold ActiveCalls. cbn [calls].
      apply finalizes_spec in Hf as (_ & _ & _ & _ & Hl).
      by apply map_size_delete_Some.
    + unfold ActiveCalls. rewrite <- !size_dom. f_equal.
      by apply Process_dom_other.
Qed.

(** ** Whole calls, at any times *)

Lemma Process_DialEnd_CANCEL (c : Correlator) (evt : Event) (now : time.Time)
    (cs : callState) :
  notification "DialEnd" evt = true →
  Get evt "DialStatus" = "CANCEL" →
  calls c !! call_id evt = Some cs →
  Process c evt now = ([], store c (call_id evt) (set_cancelled cs)).
Proof.
  intros (Hr & Hid & Hty)%notification_spec Hd Hl. unfold call_id in *.
  unfold Process. rewrite Hr, (bool_decide_eq_false_2 _ Hid), Hty.
  cbn. unfold handleDialEnd. by rewrite Hl, (bool_decide_eq_true_2 _ Hd).
Qed.

Lemma IsZero_nonzero (t : time.Time) : t ≠ 0 → time.IsZero t = false.
Proof. intros Ht. unfold time.IsZero. by apply Z.eqb_neq. Qed.

(** A call that is created, rings at [tr], is answered at [ta] and whose
    primary leg terminates at [th], in terms of [time.Sub] and
    [time.Seconds]. *)
Lemma answered_call_trace (id num name ext : string) (code : Z)
    (tc tr ta th : time.Time) (e1 e2 e3 e4 : Event) :
  tr ≠ 0 → ta ≠ 0 →
  creation_of e1 id num name ext →
  state_notification_of e2 id "Ringing" →
  state_notification_of e3 id "Up" →
  primary_termination_of e4 id code →
  ∃ r a h,
    (ProcessAll New [(e1, tc); (e2, tr); (e3, ta); (e4, th)]).1 = [r; a; h]
    ∧ State r = StateRinging ∧ Timestamp r = tr
    ∧ State a = StateAnswered ∧ Timestamp a = ta
    ∧ RingDuration a = time.Seconds (time.Sub ta tr)
    ∧ State h = StateHungUp ∧ Timestamp h = th ∧ CauseCode h = code
    ∧ TalkDuration h = time.Seconds (time.Sub th ta)
    ∧ TotalDuration h = time.Seconds (time.Sub th tr).
Proof.
  intros Htr Hta (Hn1 & Hid1 & _) (Hn2 & Hid2 & Hd2)
    (Hn3 & Hid3 & Hd3) (Hn4 & Hid4 & Hleg & Hcode).
  pose proof Hn1 as (Hr1 & Hne1 & Hty1)%notification_spec.
  pose proof Hn4 as (Hr4 & Hne4 & Hty4)%notification_spec.
  assert (opens New e1 = true) as Ho1.
  { apply opens_spec. exact (conj Hr1 (conj Hne1 (conj Hty1 (lookup_empty _)))). }
  cbn [ProcessAll].
  rewrite (Process_opens New e1 tc Ho1).
  set (cs1 := fresh_record e1).
  assert (calls (store New (call_id e1) cs1) !! call_id e2 = Some cs1) as Hl2.
  { rewrite Hid2, Hid1. apply lookup_insert_eq. }
  rewrite (Process_Ringing _ e2 tr cs1 Hn2 Hd2 Hl2 eq_refl).
  set (cs2 := set_rung cs1 tr).
  set (c2 := store _ (call_id e2) cs2).
  assert (calls c2 !! call_id e3 = Some cs2) as Hl3.
  { subst c2. rewrite Hid3, Hid2. apply lookup_insert_eq. }
  rewrite (Process_Up c2 e3 _ cs2 Hn3 Hd3 Hl3 eq_refl).
  set (cs3 := set_answered cs2 ta).
  set (c3 := store c2 (call_id e3) cs3).
  assert (calls c3 !! call_id e4 = Some cs3) as Hl4.
  { subst c3. rewrite Hid4, Hid3. apply lookup_insert_eq. }
  assert (finalizes c3 e4 = true) as Hf4.
  { apply finalizes_spec. rewrite Hl4, Hleg, Hid4.
    exact (conj Hr4 (conj (eq_ind _ (λ x, x ≠ "") Hne4 _ Hid4)
             (conj Hty4 (conj eq_refl (mk_is_Some _ _ eq_refl))))). }
  rewrite (Process_Hangup_primary c3 e4 _ cs3 Hf4 Hl4).
  cbn [fst snd app]. eexists _, _, _. split; [reflexivity|].
  unfold plain_change, ring_duration, talk_duration.
  subst cs3 cs2 cs1.
  cbn [State Timestamp RingDuration TalkDuration TotalDuration CauseCode
       from to ringTime answerTime answered rung cancelled
       set_answered set_rung fresh_record andb negb].
  rewrite (IsZero_nonzero tr Htr), (IsZero_nonzero ta Hta). cbn [negb].
  by repeat split.
Qed.

Definition cancel_notification_of (evt : Event) (id : string) : Prop :=
  notification "DialEnd" evt = true ∧ call_id evt = id
  ∧ Get evt "DialStatus" = "CANCEL".

(** A call that is created, rings at [tr], is cancelled by the caller and
    whose primary leg terminates at [th], in terms of [time.Sub] and
    [time.Seconds]. *)
Lemma cancelled_call_trace (id num name ext : string) (code : Z)
    (tc tr tx th : time.Time) (e1 e2 e3 e4 : Event) :
  creation_of e1 id num name ext →
  state_notification_of e2 id "Ringing" →
  cancel_notification_of e3 id →
  primary_termination_of e4 id code →
  ∃ r h,
    (ProcessAll New [(e1, tc); (e2, tr); (e3, tx); (e4, th)]).1 = [r; h]
    ∧ State r = StateRinging ∧ Timestamp r = tr
    ∧ State h = StateHungUp ∧ Timestamp h = th
    ∧ Cause h = "cancelled" ∧ CauseDescription h = cancelled_description
    ∧ CauseCode h = code
    ∧ TalkDuration h = 0%Q
    ∧ TotalDuration h
      = (if time.IsZero tr then 0%Q else time.Seconds (time.Sub th tr)).
Proof.
  intros (Hn1 & Hid1 & _) (Hn2 & Hid2 & Hd2)
    (Hn3 & Hid3 & Hd3) (Hn4 & Hid4 & Hleg & Hcode).
  pose proof Hn1 as (Hr1 & Hne1 & Hty1)%notification_spec.
  pose proof Hn4 as (Hr4 & Hne4 & Hty4)%notification_spec.
  assert (opens New e1 = true) as Ho1.
  { apply opens_spec. exact (conj Hr1 (conj Hne1 (conj Hty1 (lookup_empty _)))). }
  cbn [ProcessAll].
  rewrite (Process_opens New e1 tc Ho1).
  set (cs1 := fresh_record e1).
  assert (calls (store New (call_id e1) cs1) !! call_id e2 = Some cs1) as Hl2.
  { rewrite Hid2, Hid1. apply lookup_insert_eq. }
  rewrite (Process_Ringing _ e2 tr cs1 Hn2 Hd2 Hl2 eq_refl).
  set (cs2 := set_rung cs1 tr).
  set (c2 := store _ (call_id e2) cs2).
  assert (calls c2 !! call_id e3 = Some cs2) as Hl3.
  { subst c2. rewrite Hid3, Hid2. apply lookup_insert_eq. }
  rewrite (Process_DialEnd_CANCEL c2 e3 _ cs2 Hn3 Hd3 Hl3).
  set (cs3 := set_cancelled cs2).
  set (c3 := store c2 (call_id e3) cs3).
  assert (calls c3 !! call_id e4 = Some cs3) as Hl4.
  { subst c3. rewrite Hid4, Hid3. apply lookup_insert_eq. }
  assert (finalizes c3 e4 = true) as Hf4.
  { apply finalizes_spec. rewrite Hl4, Hleg, Hid4.
    exact (conj Hr4 (conj (eq_ind _ (λ x, x ≠ "") Hne4 _ Hid4)
             (conj Hty4 (conj eq_refl (mk_is_Some _ _ eq_refl))))). }
  rewrite (Process_Hangup_primary c3 e4 _ cs3 Hf4 Hl4).
  cbn [fst snd app]. eexists _, _. split; [reflexivity|].
  unfold plain_change, ring_duration, talk_duration, resolve_cause.
  subst cs3 cs2 cs1.
  cbn [State Timestamp Cause CauseDescription RingDuration TalkDuration
       TotalDuration CauseCode
       from to ringTime answerTime answered rung cancelled
       set_cancelled set_rung fresh_record andb negb CauseName fst snd].
  repeat split; try done; by destruct (time.IsZero tr).
Qed.

Lemma Qred_inject_Z (k : Z) : Qred (inject_Z k) = inject_Z k.
Proof.
  unfold Qred, inject_Z.
  pose proof (Z.ggcd_gcd k 1) as Hg.
  pose proof (Z.ggcd_correct_divisors k 1) as Hd.
  destruct (Z.ggcd k 1) as [g [aa bb]]. cbn [fst snd] in *.
  rewrite Z.gcd_1_r in Hg. subst g. destruct Hd as [Ha Hb].
  rewrite Z.mul_1_l in Ha, Hb. by subst.
Qed.

(** A whole number of seconds is that number: no rounding takes place. *)
Lemma Seconds_whole (k : Z) : time.Seconds (k * time.Second) = inject_Z k.
Proof.
  rewrite <- (Qred_inject_Z k). unfold time.Seconds.
  rewrite Z.quot_mul, Z.rem_mul by done.
  apply Qred_complete. unfold Qdiv. rewrite Qmult_0_l. apply Qplus_0_r.
Qed.

Lemma whole_seconds_fit (k : Z) :
  0 <= k → k * time.Second <= time.maxDuration →
  time.minDuration <= k * time.Second <= time.maxDuration.
Proof.
  unfold time.minDuration, time.maxDuration, time.Second. lia.
Qed.

(** A call that is created, rings at [tr] (after the zero instant), is
    answered [kr] seconds later and whose primary leg terminates [kt]
    seconds after the answer, [kr] and [kt] whole numbers with [kr + kt]
    seconds within a [Duration]: the changes are Ringing, Answered and
    HungUp in that order, with ring_duration [kr], talk_duration [kt] and
    total_duration [kr + kt], whatever the instant of the creation and the
    cause code. *)
Theorem answered_call_durations (id num name ext : string) (code kr kt : Z)
    (tc tr : time.Time) (e1 e2 e3 e4 : Event) :
  let ta := time.Add tr (kr * time.Second) in
  let th := time.Add ta (kt * time.Second) in
  0 < tr → 0 <= kr → 0 <= kt →
  (kr + kt) * time.Second <= time.maxDuration →
  creation_of e1 id num name ext →
  state_notification_of e2 id "Ringing" →
  state_notification_of e3 id "Up" →
  primary_termination_of e4 id code →
  ∃ r a h,
    (ProcessAll New [(e1, tc); (e2, tr); (e3, ta); (e4, th)]).1 = [r; a; h]
    ∧ State r = StateRinging ∧ Timestamp r = tr
    ∧ State a = StateAnswered ∧ Timestamp a = ta
    ∧ RingDuration a = inject_Z kr
    ∧ State h = StateHungUp ∧ Timestamp h = th ∧ CauseCode h = code
    ∧ TalkDuration h = inject_Z kt
    ∧ TotalDuration h = inject_Z (kr + kt).
Proof.
  intros ta th Htr Hkr Hkt Hfit H1 H2 H3 H4.
  assert (kr * time.Second <= time.maxDuration
          ∧ kt * time.Second <= time.maxDuration) as [Hfr Hft]
    by (unfold time.Second in *; lia).
  assert (ta ≠ 0) as Hta by (unfold ta, time.Add, time.Second; lia).
  destruct (answered_call_trace id num name ext code tc tr ta th e1 e2 e3 e4)
    as (r & a & h & Hout & Hr & Htsr & Ha & Htsa & Hring & Hh & Htsh & Hcode
        & Htalk & Htotal); try done; [lia|].
  exists r, a, h.
  assert (time.Sub ta tr = kr * time.Second) as Hsr
    by (by apply Sub_Add, whole_seconds_fit).
  assert (time.Sub th ta = kt * time.Second) as Hst
    by (by apply Sub_Add, whole_seconds_fit).
  assert (time.Sub th tr = (kr + kt) * time.Second) as Hsa.
  { replace th with (time.Add tr ((kr + kt) * time.Second))
      by (unfold th, ta, time.Add; lia).
    apply Sub_Add, whole_seconds_fit; [lia|done]. }
  rewrite Hsr in Hring. rewrite Hst in Htalk. rewrite Hsa in Htotal.
  rewrite Seconds_whole in Hring, Htalk, Htotal.
  exact (conj Hout (conj Hr (conj Htsr (conj Ha (conj Htsa (conj Hring
          (conj Hh (conj Htsh (conj Hcode (conj Htalk Htotal)))))))))).
Qed.

Lemma answered_call_durations_witness :
  ∃ r a h,
    (ProcessAll New run_answered).1 = [r; a; h]
    ∧ State r = StateRinging ∧ Timestamp r = t_2026
    ∧ State a = StateAnswered ∧ Timestamp a = time.Add t_2026 (5 * time.Second)
    ∧ RingDuration a = 5%Q
    ∧ State h = StateHungUp ∧ Timestamp h = time.Add t_2026 (35 * time.Second)
    ∧ CauseCode h = 16
    ∧ TalkDuration h = 30%Q
    ∧ TotalDuration h = 35%Q.
Proof.
  apply (answered_call_durations "test.1" "1986" "Martin" "21" 16 5 30
           t_2026 t_2026).
  - vm_compute. reflexivity.
  - vm_compute. discriminate.
  - vm_compute. discriminate.
  - vm_compute. discriminate.
  - vm_compute. repeat split; reflexivity.
  - vm_compute. repeat split; reflexivity.
  - vm_compute. repeat split; reflexivity.
  - vm_compute. repeat split; reflexivity.
Defined.

(** A call that is created, rings, is cancelled by the caller and whose
    primary leg terminates, at any four instants: the changes are Ringing
    and HungUp only; the HungUp change has the cause name "cancelled" with
    its fixed description, the numeric code of the termination record
    whatever it is, and talk_duration 0. When the ringing is seen after the
    zero instant and the termination comes a whole number [k] of seconds
    after it ([k] seconds within a [Duration]), total_duration is [k]. *)
Theorem cancelled_call (id num name ext : string) (code : Z)
    (tc tr tx th : time.Time) (e1 e2 e3 e4 : Event) :
  creation_of e1 id num name ext →
  state_notification_of e2 id "Ringing" →
  cancel_notification_of e3 id →
  primary_termination_of e4 id code →
  ∃ r h,
    (ProcessAll New [(e1, tc); (e2, tr); (e3, tx); (e4, th)]).1 = [r; h]
    ∧ State r = StateRinging ∧ Timestamp r = tr
    ∧ State h = StateHungUp ∧ Timestamp h = th
    ∧ Cause h = "cancelled" ∧ CauseDescription h = cancelled_description
    ∧ CauseCode h = code
    ∧ TalkDuration h = 0%Q
    ∧ (∀ k, 0 < tr → 0 <= k → k * time.Second <= time.maxDuration →
            th = time.Add tr (k * time.Second) → TotalDuration h = inject_Z k).
Proof.
  intros H1 H2 H3 H4.
  destruct (cancelled_call_trace id num name ext code tc tr tx th e1 e2 e3 e4
              H1 H2 H3 H4)
    as (r & h & Hout & Hr & Htsr & Hh & Htsh & Hcause & Hdesc & Hcode
        & Htalk & Htotal).
  exists r, h. repeat (split; [assumption|]).
  intros k Htr Hk Hfit ->. rewrite Htotal, (IsZero_false tr Htr).
  rewrite Sub_Add by (by apply whole_seconds_fit).
  apply Seconds_whole.
Qed.

(** The run of scenario B: ringing one second after creation, cancelled,
    terminated ten seconds later with cause 16. *)
Definition run_cancelled : list (Event * time.Time) :=
  [ (ev_Newchannel "na.1" "1986" "" "21", t_2026);
    (ev_Newstate "na.1" "na.2" "Ringing", time.Add t_2026 (1 * time.Second));
    (ev_DialEnd "na.1" "na.1" "CANCEL", time.Add t_2026 (11 * time.Second));
    (ev_Hangup "na.1" "na.1" "16", time.Add t_2026 (11 * time.Second)) ].

Lemma cancelled_call_witness :
  ∃ r h,
    (ProcessAll New run_cancelled).1 = [r; h]
    ∧ State r = StateRinging ∧ Timestamp r = time.Add t_2026 (1 * time.Second)
    ∧ State h = StateHungUp ∧ Timestamp h = time.Add t_2026 (11 * time.Second)
    ∧ Cause h = "cancelled" ∧ CauseDescription h = cancelled_description
    ∧ CauseCode h = 16
    ∧ TalkDuration h = 0%Q
    ∧ TotalDuration h = 10%Q.
Proof.
  destruct (cancelled_call "na.1" "1986" "" "21" 16
              t_2026 (time.Add t_2026 (1 * time.Second))
              (time.Add t_2026 (11 * time.Second))
              (time.Add t_2026 (11 * time.Second))
              (ev_Newchannel "na.1" "1986" "" "21")
              (ev_Newstate "na.1" "na.2" "Ringing")
              (ev_DialEnd "na.1" "na.1" "CANCEL")
              (ev_Hangup "na.1" "na.1" "16"))
    as (r & h & Hout & Hr & Htsr & Hh & Htsh & Hcause & Hdesc & Hcode
        & Htalk & Htotal).
  - vm_compute. repeat split; reflexivity.
  - vm_compute. repeat split; reflexivity.
  - vm_compute. repeat split; reflexivity.
  - vm_compute. repeat split; reflexivity.
  - exists r, h. repeat (split; [assumption|]).
    apply (Htotal 10).
    + vm_compute. reflexivity.
    + vm_compute. discriminate.
    + vm_compute. discriminate.
    + vm_compute. reflexivity.
Defined.

(** ** A publisher that fails *)

Section failing_publisher.

Variable Marshal : mqttPayload → string + string.
Variable FormatRFC3339 : time.Time → string.

Lemma publishChanges_failing (m : MockPublisher) (prefix : string)
    (changes : list CallStateChange) :
  is_Some (err m) →
  publishChanges Marshal FormatRFC3339 m prefix changes = m.
Proof.
  intros [e He]. induction changes as [|ch changes IH]; cbn [publishChanges]; [done|].
  unfold publishChange.
  destruct (Marshal (payload_of FormatRFC3339 ch)); cbn [snd]; [|done].
  cbn [Publish MockPublisher_Publisher]. unfold Mock_Publish. rewrite He.
  cbn [snd]. apply IH.
Qed.

(** While the mock publisher is set to fail, the loop records no message
    and goes on: the publisher stays as it was, however many changes the
    correlator emits. *)
Theorem pump_failing_publisher (corr : Correlator) (m : MockPublisher) (e : string)
    (prefix : string) (evts : list (Event * time.Time)) :
  (pump Marshal FormatRFC3339 corr (SetError m (Some e)) prefix evts).2
  = SetError m (Some e).
Proof.
  revert corr. induction evts as [|[evt now] evts IH]; intros corr; [done|].
  cbn [pump]. destruct (Process corr evt now) as [changes corr'].
  rewrite publishChanges_failing by (by eexists). apply IH.
Qed.

End failing_publisher.
